(** * The decision core of the 2048 agent (game.py), embedded in Rocq

    Boards are Python lists of lists of unbounded integers: [list (list Z)].
    Every list access of the source is written with the Python indexing
    rules (negative indices count from the end, an index out of range
    raises IndexError), so a function on a malformed board fails exactly
    where the source fails. Where the source reverses rows in place the
    board is a list of references to row objects, so that shared rows
    behave as in Python. The floats of the scorer are binary64 values:
    integer values are followed exactly, with the rounding of every
    addition and the OverflowError of [pow]; other values are recorded as
    computed without their value. Part 1 follows game.py function by
    function, Part 2 states the notions of the specification (one line of
    a transform, the board invariant, the snake traversal, the leaves of
    the search), Part 3 relates the two. *)

From Stdlib Require Import ZArith List Bool Lia Permutation.
Import ListNotations.
Open Scope Z_scope.

(** * Part 1: the program *)

(** ** A fragment of Python: exceptions, list indexing, ranges, loops *)

Inductive exn : Type :=
| IndexError
| ValueError
| OverflowError.

Inductive result (A : Type) : Type :=
| Ok (a : A)
| Raise (e : exn).

Arguments Ok {A} a.
Arguments Raise {A} e.

Definition bind {A B : Type} (c : result A) (k : A -> result B) : result B :=
  match c with
  | Ok a => k a
  | Raise e => Raise e
  end.

Notation "x <- c ;; k" := (bind c (fun x => k))
  (at level 61, c at next level, right associativity).

(** [len(l)] *)
Definition len {A : Type} (l : list A) : Z := Z.of_nat (length l).

(** The position a Python index denotes: [i] itself, or [i + len(l)] when
    [i] is negative. *)
Definition norm_index {A : Type} (l : list A) (i : Z) : Z :=
  if i <? 0 then i + len l else i.

(** [l[i]] *)
Definition getitem {A : Type} (l : list A) (i : Z) : result A :=
  let j := norm_index l i in
  if j <? 0 then Raise IndexError
  else match nth_error l (Z.to_nat j) with
       | Some x => Ok x
       | None => Raise IndexError
       end.

Fixpoint update {A : Type} (l : list A) (n : nat) (v : A) : list A :=
  match l, n with
  | [], _ => []
  | _ :: t, O => v :: t
  | h :: t, S n' => h :: update t n' v
  end.

(** [l[i] = v] *)
Definition setitem {A : Type} (l : list A) (i : Z) (v : A) : result (list A) :=
  let j := norm_index l i in
  if (j <? 0) || (len l <=? j) then Raise IndexError
  else Ok (update l (Z.to_nat j) v).

(** A slice bound is clamped to [0 .. len(l)], never an error. *)
Definition clamp_index {A : Type} (l : list A) (i : Z) : nat :=
  Z.to_nat (Z.max 0 (norm_index l i)).

(** [l[:i]] and [l[i:]] *)
Definition slice_to {A : Type} (l : list A) (i : Z) : list A :=
  firstn (clamp_index l i) l.

Definition slice_from {A : Type} (l : list A) (i : Z) : list A :=
  skipn (clamp_index l i) l.

(** [range(n)] *)
Definition range (n : Z) : list Z :=
  map Z.of_nat (seq 0 (Z.to_nat n)).

(** [range(start, stop, -1)] *)
Definition range_down (start stop : Z) : list Z :=
  map (fun k => start - Z.of_nat k) (seq 0 (Z.to_nat (start - stop))).

(** [for i in l: s = body(i, s)], where the body may raise. *)
Fixpoint for_each {I S : Type} (l : list I) (body : I -> S -> result S)
    (s : S) : result S :=
  match l with
  | [] => Ok s
  | i :: l' => s' <- body i s ;; for_each l' body s'
  end.

(** [x != 1]: the cell is not the empty-cell sentinel. *)
Definition occupied (x : Z) : bool := negb (x =? 1).

(** ** The transforms [left] and [right] (game.py, lines 16-54) *)

(** The list comprehension and padding of the first loop of [left]. *)
Definition left_compact (row : list Z) : list Z :=
  let new_row := filter occupied row in
  new_row ++ repeat 1 (length row - length new_row).

(** The body of the inner loop of [left], for row [idx] and position [i]. *)
Definition left_body (idx i : Z) (board_copy : list (list Z))
  : result (list (list Z)) :=
  row <- getitem board_copy idx ;;
  x <- getitem row i ;;
  y <- getitem row (i + 1) ;;
  if (x =? y) && occupied x then
    row1 <- setitem row i (x * 2) ;;
    if i =? len row1 - 2 then
      row2 <- setitem row1 (-1) 1 ;;
      setitem board_copy idx row2
    else
      setitem board_copy idx
        (slice_to row1 (i + 1) ++ slice_from row1 (i + 2) ++ [1])
  else Ok board_copy.

Definition left (board : list (list Z)) : result (list (list Z)) :=
  let rows := len board in
  row0 <- getitem board 0 ;;
  let cols := len row0 in
  let board_copy := map left_compact board in
  for_each (range rows)
    (fun idx => for_each (range (cols - 1)) (left_body idx))
    board_copy.

(** The list comprehension and padding of the first loop of [right]. *)
Definition right_compact (row : list Z) : list Z :=
  let new_row := filter occupied row in
  repeat 1 (length row - length new_row) ++ new_row.

(** The body of the inner loop of [right]. *)
Definition right_body (idx i : Z) (board_copy : list (list Z))
  : result (list (list Z)) :=
  row <- getitem board_copy idx ;;
  x <- getitem row i ;;
  y <- getitem row (i - 1) ;;
  if (x =? y) && occupied x then
    row1 <- setitem row i (x * 2) ;;
    if i =? 1 then
      row2 <- setitem row1 0 1 ;;
      setitem board_copy idx row2
    else
      setitem board_copy idx
        ([1] ++ slice_to row1 (i - 1) ++ slice_from row1 i)
  else Ok board_copy.

Definition right (board : list (list Z)) : result (list (list Z)) :=
  let rows := len board in
  row0 <- getitem board 0 ;;
  let cols := len row0 in
  let board_copy := map right_compact board in
  for_each (range rows)
    (fun idx => for_each (range_down (cols - 1) 0) (right_body idx))
    board_copy.

(** ** The transform [down] (game.py, lines 61-115) *)

(** [b[r][c]] and [b[r][c] = v] *)
Definition getcell (b : list (list Z)) (r c : Z) : result Z :=
  row <- getitem b r ;; getitem row c.

Definition setcell (b : list (list Z)) (r c v : Z) : result (list (list Z)) :=
  row <- getitem b r ;;
  row' <- setitem row c v ;;
  setitem b r row'.

(** [for row in board: if len(row) != cols: raise ValueError] *)
Fixpoint check_row_lengths (board : list (list Z)) (cols : Z) : result unit :=
  match board with
  | [] => Ok tt
  | row :: board' =>
      if negb (len row =? cols) then Raise ValueError
      else check_row_lengths board' cols
  end.

(** One iteration of the first [while rowc >= 0] loop: the tiles of column
    [col] of [board_copy] are written into [down_board] from the bottom. *)
Definition down_push_body (board_copy : list (list Z)) (col rowc : Z)
    (st : list (list Z) * Z) : result (list (list Z) * Z) :=
  let '(down_board, rowd) := st in
  x <- getcell board_copy rowc col ;;
  if occupied x then
    down_board' <- setcell down_board rowd col x ;;
    Ok (down_board', rowd - 1)
  else Ok (down_board, rowd).

(** One iteration of the merge loop [for row in range(rows - 1, 0, -1)]. *)
Definition down_merge_body (col row : Z) (down_board : list (list Z))
  : result (list (list Z)) :=
  x <- getcell down_board row col ;;
  y <- getcell down_board (row - 1) col ;;
  if (x =? y) && occupied x then
    down_board1 <- setcell down_board row col (x * 2) ;;
    setcell down_board1 (row - 1) col 1
  else Ok down_board.

(** One iteration of the second [while rowc >= 0] loop, which reads and
    writes [down_board] in place. *)
Definition down_repush_body (col rowc : Z) (st : list (list Z) * Z)
  : result (list (list Z) * Z) :=
  let '(down_board, rowd) := st in
  x <- getcell down_board rowc col ;;
  if occupied x then
    down_board' <- setcell down_board rowd col x ;;
    Ok (down_board', rowd - 1)
  else Ok (down_board, rowd).

(** One iteration of [while rowd >= 0: down_board[rowd][col] = 1]. *)
Definition down_fill_body (col rowd : Z) (down_board : list (list Z))
  : result (list (list Z)) :=
  setcell down_board rowd col 1.

(** The body of [for col in range(cols)]. The counters [rowc] and [rowd]
    of the [while] loops only ever decrease by one, from their start value
    to 0, so each loop runs over [range_down start (-1)]. *)
Definition down_column (board_copy : list (list Z)) (rows col : Z)
    (down_board : list (list Z)) : result (list (list Z)) :=
  st1 <- for_each (range_down (rows - 1) (-1))
           (down_push_body board_copy col) (down_board, rows - 1) ;;
  down_board2 <- for_each (range_down (rows - 1) 0)
                   (down_merge_body col) (fst st1) ;;
  st3 <- for_each (range_down (rows - 1) (-1))
           (down_repush_body col) (down_board2, rows - 1) ;;
  for_each (range_down (snd st3) (-1)) (down_fill_body col) (fst st3).

Definition down (board : list (list Z)) : result (list (list Z)) :=
  match board with
  | [] => Raise ValueError
  | [] :: _ => Raise ValueError
  | row0 :: _ =>
      let rows := len board in
      let cols := len row0 in
      _ <- check_row_lengths board cols ;;
      let board_copy := board in
      let down_board :=
        repeat (repeat 1 (Z.to_nat cols)) (Z.to_nat rows) in
      for_each (range cols) (down_column board_copy rows) down_board
  end.

(** ** Module constants and [get_max_cell] (game.py, lines 6-14) *)

(** The module constants [rows = 4] and [cols = 4]. *)
Definition rows : Z := 4.
Definition cols : Z := 4.

Definition get_max_cell (board : list (list Z)) : Z :=
  fold_left (fun max_cell row => fold_left Z.max row max_cell) board 1.

(** ** The positional scorer (game.py, lines 117-144) *)

(** The [while] loop of [find_longest_path]. [rest] is
    [board_list[ind:]]: the loop stops when it is empty
    ([ind == len(board_list)]) or when its head exceeds [last]. *)
Fixpoint path_loop (rest longest_seq : list Z) (last : Z) : list Z :=
  match rest with
  | [] => longest_seq
  | x :: rest' =>
      if x <=? last then path_loop rest' (longest_seq ++ [x]) x
      else longest_seq
  end.

(** A board as Python holds it: the outer list holds references [refs] to
    row lists, the [objects], and two positions with the same reference are
    one list object. [copy.deepcopy] copies the objects and keeps the
    sharing. [find_longest_path] reverses rows in place, so the sharing
    shows in it; every other function of game.py reads the rows of its
    argument or replaces whole rows by new lists, and is written on the
    values [list (list Z)]. *)
Record pyboard : Type := {
  objects : list (list Z);
  refs : list nat
}.

(** The rows of the board, position by position. *)
Definition rows_of (board : pyboard) : list (list Z) :=
  map (fun r => nth r (objects board) []) (refs board).

(** A board whose rows are distinct list objects, as a nested list
    display or a transform builds it. *)
Definition fresh (b : list (list Z)) : pyboard :=
  {| objects := b; refs := seq 0 (length b) |}.

(** [board[i].reverse()]: the list object at position [i] is reversed, for
    every position that holds it. *)
Definition reverse_row (board : pyboard) (i : Z) : result pyboard :=
  r <- getitem (refs board) i ;;
  Ok {| objects := update (objects board) r (rev (nth r (objects board) []));
        refs := refs board |}.

Definition find_longest_path (board : pyboard) : result (list Z) :=
  let board_copy := board in
  board_copy <- reverse_row board_copy 0 ;;
  board_copy <- reverse_row board_copy 2 ;;
  let board_list := rev (concat (rows_of board_copy)) in
  last <- getitem board_list 0 ;;
  Ok (path_loop board_list [] last).

(** The outcome of a function that computes with floats: a result, an
    exception, or [Untracked] where the model does not follow the floats
    far enough to tell what the function does. *)
Inductive outcome (A : Type) : Type :=
| Done (a : A)
| Raised (e : exn)
| Untracked.

Arguments Done {A} a.
Arguments Raised {A} e.
Arguments Untracked {A}.

Definition obind {A B : Type} (c : outcome A) (k : A -> outcome B)
  : outcome B :=
  match c with
  | Done a => k a
  | Raised e => Raised e
  | Untracked => Untracked
  end.

Notation "x <~ c ;; k" := (obind c (fun x => k))
  (at level 61, c at next level, right associativity).

(** A computation without floats, as an outcome. *)
Definition follow {A : Type} (c : result A) : outcome A :=
  match c with
  | Ok a => Done a
  | Raise e => Raised e
  end.

Fixpoint ofor_each {I S : Type} (l : list I) (body : I -> S -> outcome S)
    (s : S) : outcome S :=
  match l with
  | [] => Done s
  | i :: l' => s' <~ body i s ;; ofor_each l' body s'
  end.

(** A Python float (IEEE 754 binary64), as far as this model follows it.
    [Exact z] is the float whose value is the integer [z]; the model only
    builds it for a [z] that binary64 represents. [Approx] is any other
    float: an inexact power, a sum with one, or inf. The model records that
    such a value was computed, not which. *)
Inductive fval : Type :=
| Exact (z : Z)
| Approx.

(** The binary64 value nearest to a non-negative integer, ties to even:
    an integer of at most 53 bits is kept, a longer one keeps its 53
    leading bits, rounded. *)
Definition round64 (z : Z) : Z :=
  let e := Z.log2 z - 52 in
  if e <=? 0 then z
  else
    let q := Z.shiftr z e in
    let r := Z.land z (Z.ones e) in
    let half := Z.shiftl 1 (e - 1) in
    let q' := if (half <? r) || ((r =? half) && Z.odd q) then q + 1 else q in
    Z.shiftl q' e.

(** The first power of two that binary64 does not hold. *)
Definition float_overflow : Z := 2 ^ 1024.

(** Float addition: the exact sum, rounded. A sum that rounds to
    [float_overflow] is inf, without an exception. *)
Definition fadd (a b : fval) : fval :=
  match a, b with
  | Exact x, Exact y =>
      let s := round64 (x + y) in
      if s <? float_overflow then Exact s else Approx
  | _, _ => Approx
  end.

(** [pow(base, math.log2(x))] for the bases 4 and 3 of [score].
    [math.log2] raises ValueError (math domain error) when [x <= 0]. On a
    power of two [2 ^ k] it returns [k] exactly; [pow] then raises
    OverflowError when [base ^ k] is beyond the floats (from [4 ^ 512] and
    [3 ^ 647] on), returns [base ^ k] when binary64 represents it (every
    power of 4 below, the powers of 3 up to [3 ^ 33]) and a rounded value
    otherwise. On another positive [x] the logarithm and the power are
    rounded values of the C library: below [2 ^ 511] the power is far from
    overflow and some float is returned; from there on the model does not
    tell whether [pow] overflows. *)
Definition pow_log2 (base x : Z) : outcome fval :=
  if x <=? 0 then Raised ValueError
  else if x =? 2 ^ Z.log2 x then
    let p := base ^ Z.log2 x in
    if float_overflow <=? p then Raised OverflowError
    else if round64 p =? p then Done (Exact p)
    else Done Approx
  else if x <? 2 ^ 511 then Done Approx
  else Untracked.

(** [score] starts from the integer 0, to which the first float is added
    unchanged. *)
Definition score (board : pyboard) : outcome fval :=
  seq <~ follow (find_longest_path board) ;;
  score1 <~ ofor_each seq
              (fun i score => p <~ pow_log2 4 i ;; Done (fadd score p))
              (Exact 0) ;;
  ofor_each (rows_of board)
    (fun row => ofor_each row
                  (fun cell score => p <~ pow_log2 3 cell ;; Done (fadd score p)))
    score1.

(** ** The pivot heuristic (game.py, lines 147-174) *)

Inductive move : Type := Up | Down | Left | Right | Undo.

(** What a loop body does next: leave the function with a value, or go on
    with the next iteration. *)
Inductive ctl (R : Type) : Type :=
| Return (r : R)
| Continue.

Arguments Return {R} r.
Arguments Continue {R}.

(** A [for] loop whose body may [return]. *)
Fixpoint for_return {R : Type} (l : list Z) (body : Z -> result (ctl R))
  : result (ctl R) :=
  match l with
  | [] => Ok Continue
  | i :: l' =>
      c <- body i ;;
      match c with
      | Return r => Ok (Return r)
      | Continue => for_return l' body
      end
  end.

(** [l.sort(reverse=True)] on integers. *)
Fixpoint insert_desc (x : Z) (l : list Z) : list Z :=
  match l with
  | [] => [x]
  | y :: l' => if y <? x then x :: y :: l' else y :: insert_desc x l'
  end.

Definition sort_desc (l : list Z) : list Z := fold_right insert_desc [] l.

(** The body of the scan of a row, from the boundary cell inward: empty
    cells are skipped, the first occupied cell decides. *)
Definition pivot_scan_body (board_copy : list (list Z)) (row expected : Z)
    (m : move) (i : Z) : result (ctl (option move)) :=
  r <- getitem board_copy row ;;
  x <- getitem r i ;;
  if x =? 1 then Ok Continue
  else if x =? expected then Ok (Return (Some m))
  else Ok (Return (Some Undo)).

(** The condition of the first [if] of the loop body (even ranks, right
    boundary), with the short-circuit evaluation of [and] and [or];
    [expected] is [board_list[bl_idx]], which the loop body has already
    read. *)
Definition pivot_even_cond (board_copy : list (list Z)) (board_list : list Z)
    (row bl_idx expected : Z) : result bool :=
  if (rows - row - 1) mod 2 =? 0 then
    r <- getitem board_copy row ;;
    x <- getitem r (cols - 1) ;;
    if negb (expected =? x) then
      if bl_idx =? 0 then Ok true
      else
        below <- getitem board_copy (row + 1) ;;
        y <- getitem below (cols - 1) ;;
        prev <- getitem board_list (bl_idx - 1) ;;
        Ok (y =? prev)
    else Ok false
  else Ok false.

(** The condition of the second [if] (odd ranks, left boundary). *)
Definition pivot_odd_cond (board_copy : list (list Z)) (board_list : list Z)
    (row bl_idx expected : Z) : result bool :=
  if (rows - row - 1) mod 2 =? 1 then
    r <- getitem board_copy row ;;
    x <- getitem r 0 ;;
    if negb (expected =? x) then
      below <- getitem board_copy (row + 1) ;;
      y <- getitem below 0 ;;
      prev <- getitem board_list (bl_idx - 1) ;;
      Ok (y =? prev)
    else Ok false
  else Ok false.

(** The body of [for row in range(rows - 1, -1, -1)]. *)
Definition pivot_body (board_copy : list (list Z)) (board_list : list Z)
    (row : Z) : result (ctl (option move)) :=
  let bl_idx := (rows - row - 1) * cols in
  expected <- getitem board_list bl_idx ;;
  if expected <=? 64 then Ok (Return None)
  else
    even <- pivot_even_cond board_copy board_list row bl_idx expected ;;
    c1 <- (if even then
             for_return (range_down (cols - 1) (-1))
               (pivot_scan_body board_copy row expected Right)
           else Ok Continue) ;;
    match c1 with
    | Return r => Ok (Return r)
    | Continue =>
        odd <- pivot_odd_cond board_copy board_list row bl_idx expected ;;
        if odd then
          for_return (range cols)
            (pivot_scan_body board_copy row expected Left)
        else Ok Continue
    end.

Definition check_pivots (board : list (list Z)) : result (option move) :=
  let board_copy := board in
  let board_list := sort_desc (concat board) in
  c <- for_return (range_down (rows - 1) (-1))
         (pivot_body board_copy board_list) ;;
  match c with
  | Return r => Ok r
  | Continue => Ok None
  end.

(** ** The lookahead search (game.py, lines 177-227) *)

(** One level of the expansion: the body of [for (b, move) in
    current_boards]. *)
Definition expand_body (p : list (list Z) * option move)
    (next_boards : list (list (list Z) * option move))
  : result (list (list (list Z) * option move)) :=
  let '(b, mv) := p in
  next_down <- down b ;;
  next_left <- left b ;;
  next_right <- right b ;;
  match mv with
  | Some m =>
      Ok (next_boards ++ [(next_down, Some m); (next_left, Some m);
                          (next_right, Some m)])
  | None =>
      Ok (next_boards ++ [(next_down, Some Down); (next_left, Some Left);
                          (next_right, Some Right)])
  end.

(** [for _ in range(lookahead)] with [lookahead = 3]. *)
Definition lookahead : Z := 3.

Definition possible_boards (board : list (list Z))
  : result (list (list (list Z) * option move)) :=
  for_each (range lookahead)
    (fun _ current_boards => for_each current_boards expand_body [])
    [(board, None)].

(** [scored_boards.append((score(b), move))] for every leaf. A leaf is
    the result of a transform, which builds every row as a new list. *)
Definition score_boards (leaves : list (list (list Z) * option move))
  : outcome (list (fval * option move)) :=
  ofor_each leaves
    (fun p scored_boards =>
       s <~ score (fresh (fst p)) ;; Done (scored_boards ++ [(s, snd p)]))
    [].

(** The scores as integers, when all of them are [Exact]: the order of
    these floats is the order of the integers. *)
Fixpoint exact_scores {L : Type} (l : list (fval * L)) : option (list (Z * L)) :=
  match l with
  | [] => Some []
  | (Exact z, m) :: l' =>
      match exact_scores l' with
      | Some r => Some ((z, m) :: r)
      | None => None
      end
  | (Approx, _) :: _ => None
  end.

(** [l.sort(key=lambda x: x[0], reverse=True)]. Python's sort is stable,
    also with [reverse=True]: among equal scores the earlier element stays
    first. Elements are inserted from the last to the first, each one
    behind the elements of strictly greater score only. *)
Fixpoint insert_stable {L : Type} (x : Z * L) (l : list (Z * L))
  : list (Z * L) :=
  match l with
  | [] => [x]
  | y :: l' =>
      if fst x <? fst y then y :: insert_stable x l' else x :: y :: l'
  end.

Definition sort_by_score_desc {L : Type} (l : list (Z * L)) : list (Z * L) :=
  fold_right insert_stable [] l.

(** [next_move]. The sort compares the scores, so the label is only
    followed when every score is [Exact]. *)
Definition next_move (board : list (list Z)) : outcome (option move) :=
  match check_pivots board with
  | Raise e => Raised e
  | Ok (Some priority_move) => Done (Some priority_move)
  | Ok None =>
      let max_element := get_max_cell board in
      scored_boards <~ (leaves <~ follow (possible_boards board) ;;
                        score_boards leaves) ;;
      match exact_scores scored_boards with
      | None => Untracked
      | Some scored =>
          match sort_by_score_desc scored with
          | [] => Done (Some Undo)
          | (_, mv) :: _ => Done mv
          end
      end
  end.

(** ** The move orchestrator (game.py, lines 232-284) *)

(** [key_map.get(move, None)]: the key that [press_key] presses. *)
Inductive key : Type := KeyUp | KeyDown | KeyLeft | KeyRight | KeyU.

Definition press_key (mv : option move) : option key :=
  match mv with
  | Some Up => Some KeyUp
  | Some Down => Some KeyDown
  | Some Left => Some KeyLeft
  | Some Right => Some KeyRight
  | Some Undo => Some KeyU
  | None => None
  end.

(** [board == upcoming_board] on lists of lists of integers. *)
Definition board_eqb (b1 b2 : list (list Z)) : bool :=
  if list_eq_dec (list_eq_dec Z.eq_dec) b1 b2 then true else false.

(** The [while board == upcoming_board] loop. Nothing in the loop is
    bounded, so the model counts iterations: [None] says that the loop is
    still running after [fuel] of them. *)
Fixpoint rotate (fuel : nat) (board : list (list Z)) (mv : option move)
    (upcoming_board : list (list Z))
  : option (result (option move * list (list Z))) :=
  if board_eqb board upcoming_board then
    match fuel with
    | O => None
    | S fuel' =>
        match mv with
        | Some Down =>
            match left board with
            | Ok b' => rotate fuel' board (Some Left) b'
            | Raise e => Some (Raise e)
            end
        | Some Left =>
            match right board with
            | Ok b' => rotate fuel' board (Some Right) b'
            | Raise e => Some (Raise e)
            end
        | _ =>
            match down board with
            | Ok b' => rotate fuel' board (Some Down) b'
            | Raise e => Some (Raise e)
            end
        end
    end
  else Some (Ok (mv, upcoming_board)).

(** The transform the first three [if move == ...] select; the initial
    value of [upcoming_board] is the empty list. *)
Definition apply_move (mv : option move) (board : list (list Z))
  : result (list (list Z)) :=
  upcoming_board <- (match mv with Some Down => down board | _ => Ok [] end) ;;
  upcoming_board <- (match mv with Some Left => left board
                                 | _ => Ok upcoming_board end) ;;
  match mv with Some Right => right board | _ => Ok upcoming_board end.

(** [next_board] returns the new board; the model also returns the key
    pressed. [None]: the function has not returned after [fuel] iterations
    of its loop. *)
Definition next_board (fuel : nat) (board : list (list Z))
  : option (outcome (list (list Z) * option key)) :=
  match next_move board with
  | Raised e => Some (Raised e)
  | Untracked => Some Untracked
  | Done mv =>
      match mv with
      | Some Undo =>
          Some (Done (repeat (repeat 1 (Z.to_nat cols)) (Z.to_nat rows),
                      press_key mv))
      | _ =>
          match apply_move mv board with
          | Raise e => Some (Raised e)
          | Ok upcoming_board =>
              match rotate fuel board mv upcoming_board with
              | None => None
              | Some (Raise e) => Some (Raised e)
              | Some (Ok (mv', b')) => Some (Done (b', press_key mv'))
              end
          end
      end
  end.

(** ** The perception boundary (main.py, lines 219-226) *)

(** [for idx, match_value in enumerate(similar_image_ids)]: a matched cell
    receives its value, an unmatched cell receives -1. *)
Definition record_matches (similar_image_ids : list (option Z))
    (valid_cell_indices : list (Z * Z)) (new_board : list (list Z))
  : result (list (list Z)) :=
  for_each (combine (range (len similar_image_ids)) similar_image_ids)
    (fun p new_board =>
       let '(idx, match_value) := p in
       cell <- getitem valid_cell_indices idx ;;
       match match_value with
       | Some v => setcell new_board (fst cell) (snd cell) v
       | None => setcell new_board (fst cell) (snd cell) (-1)
       end)
    new_board.

(** ** The board bookkeeping of the perception cycle (main.py) *)

(** The inner loop of [is_board_filled_with_ones] (main.py, lines 27-30):
    [true] when it reaches [return False]. *)
Fixpoint row_has_other_cell (row : list Z) : bool :=
  match row with
  | [] => false
  | cell :: row' => if negb (cell =? 1) then true else row_has_other_cell row'
  end.

Fixpoint is_board_filled_with_ones (board : list (list Z)) : bool :=
  match board with
  | [] => true
  | row :: board' =>
      if row_has_other_cell row then false
      else is_board_filled_with_ones board'
  end.

(** [value & (value - 1) == 0 and value != 0] (main.py, line 49) *)
Definition is_power_of_two_value (value : Z) : bool :=
  (Z.land value (value - 1) =? 0) && negb (value =? 0).

(** [get_all_power_of_two_filenames] (main.py, lines 34-52). The string
    functions are parameters: [lower] is [str.lower], [basename_isdigit]
    is [os.path.splitext(name)[0].isdigit()] and [basename_int] is
    [int(os.path.splitext(name)[0])], which may raise ValueError. *)
Definition get_all_power_of_two_filenames {filename image : Type}
    (lower : filename -> filename) (basename_isdigit : filename -> bool)
    (basename_int : filename -> result Z)
    (folder_images : list (Z * filename * image)) : result (list filename) :=
  for_each folder_images
    (fun entry power_of_two_filenames =>
       let name := lower (snd (fst entry)) in
       if basename_isdigit name then
         value <- basename_int name ;;
         if is_power_of_two_value value
         then Ok (power_of_two_filenames ++ [name])
         else Ok power_of_two_filenames
       else Ok power_of_two_filenames)
    [].

(** The cells [main] marks for processing (main.py, lines 150-160): the
    positions whose cell is 1 and whose image exists, in row-major order.
    [n_reference_images] is [len(reference_images)]. *)
Definition cell_indices_body (new_board : list (list Z))
    (cols n_reference_images row col : Z) (cell_indices : list (Z * Z))
  : result (list (Z * Z)) :=
  v <- getcell new_board row col ;;
  if v =? 1 then
    let index := row * cols + col in
    if index <? n_reference_images then Ok (cell_indices ++ [(row, col)])
    else Ok cell_indices
  else Ok cell_indices.

Definition collect_cell_indices (new_board : list (list Z))
    (rows cols n_reference_images : Z) : result (list (Z * Z)) :=
  for_each (range rows)
    (fun row =>
       for_each (range cols)
         (cell_indices_body new_board cols n_reference_images row))
    [].

(** [valid_cell_indices] (main.py, lines 197-199). [processed_ok] says,
    image by image, whether [processed_reference_images[i]] is not
    [None]. *)
Definition valid_cell_indices (cell_indices : list (Z * Z))
    (processed_ok : list bool) : result (list (Z * Z)) :=
  for_each (range (len processed_ok))
    (fun i valid =>
       ok <- getitem processed_ok i ;;
       if ok then
         cell <- getitem cell_indices i ;;
         Ok (valid ++ [cell])
       else Ok valid)
    [].

(** The board bookkeeping of [main] from line 150 on. The images are
    outside the model: the outcome of the preprocessing ([processed_ok])
    and of the comparison ([similar_image_ids]) are inputs. *)
Definition update_board (new_board : list (list Z))
    (rows cols n_reference_images : Z) (processed_ok : list bool)
    (similar_image_ids : list (option Z)) : result (list (list Z)) :=
  cell_indices <- collect_cell_indices new_board rows cols
                    n_reference_images ;;
  match cell_indices with
  | [] => Ok new_board
  | _ =>
      valid <- valid_cell_indices cell_indices processed_ok ;;
      if existsb (fun ok => ok) processed_ok then
        record_matches similar_image_ids valid new_board
      else Ok new_board
  end.

(** ** The grid of cell images (cell_images.py, lines 42-115) *)

(** [l[i:j]] *)
Definition slice {A : Type} (l : list A) (i j : Z) : list A :=
  skipn (clamp_index l i) (firstn (clamp_index l j) l).

(** [get_cell_image]. An image is the list of its pixel rows, so that
    [board_img[y1:y2, x1:x2]] slices the rows and then every row; its
    shape gives [height = len(board_img)] and [width], the length of the
    rows. [None] stands for the ZeroDivisionError of [//]. *)
Definition get_cell_image {pixel : Type} (board_img : list (list pixel))
    (width row col rows cols : Z) : option (list (list pixel)) :=
  let height := len board_img in
  if cols =? 0 then None
  else
    let cell_width := width / cols in
    if rows =? 0 then None
    else
      let cell_height := height / rows in
      let x1 := col * cell_width in
      let y1 := row * cell_height in
      let x2 := x1 + cell_width in
      let y2 := y1 + cell_height in
      Some (map (fun pixels => slice pixels x1 x2) (slice board_img y1 y2)).

(** The two loops of [capture_cell_images] (lines 104-107), which append
    the cell images row by row. [board_img] is the screenshot that
    [capture_board] returned; the files the loop writes are outside the
    model. *)
Definition capture_cell_images {pixel : Type} (board_img : list (list pixel))
    (width rows cols : Z) : option (list (list (list pixel))) :=
  fold_left
    (fun acc row =>
       fold_left
         (fun acc col =>
            match acc, get_cell_image board_img width row col rows cols with
            | Some cell_images, Some cell_img =>
                Some (cell_images ++ [cell_img])
            | _, _ => None
            end)
         (range cols) acc)
    (range rows) (Some []).

(** * Part 2: the notions of the specification *)

(** ** What a transform does to one line *)

(** Merge once per pair, scanning from the target edge (the head of the
    list) inward: two equal neighbours become one cell of double value, and
    the scan resumes after the pair, so a cell produced by a merge is never
    compared again. *)
Fixpoint merge_pairs (l : list Z) : list Z :=
  match l with
  | x :: ((y :: l') as t) =>
      if x =? y then x * 2 :: merge_pairs l' else x :: merge_pairs t
  | _ => l
  end.

(** Compact, merge once per pair from the left edge, pad on the right. *)
Definition left_line (row : list Z) : list Z :=
  let m := merge_pairs (filter occupied row) in
  m ++ repeat 1 (length row - length m).

(** Compact, merge once per pair from the right edge, pad on the left. *)
Definition right_line (row : list Z) : list Z :=
  let m := rev (merge_pairs (rev (filter occupied row))) in
  repeat 1 (length row - length m) ++ m.

(** ** Well-formed boards and their columns *)

Definition board4x4 (b : list (list Z)) : Prop :=
  length b = 4%nat /\ Forall (fun row => length row = 4%nat) b.

(** Column [col] of a board, top to bottom, and its replacement. *)
Definition column (b : list (list Z)) (col : nat) : list Z :=
  map (fun row => nth col row 1) b.

Definition set_column (b : list (list Z)) (col : nat) (vals : list Z)
  : list (list Z) :=
  map (fun p => update (fst p) col (snd p)) (combine b vals).

(** The four columns of a 4x4 board; on such a board the function is its
    own inverse. *)
Definition transpose4 (b : list (list Z)) : list (list Z) :=
  map (column b) [0; 1; 2; 3]%nat.

(** ** The board invariant and the multiset of tiles *)

(** A tile value: a power of two, at least 2. *)
Definition power_of_two (x : Z) : Prop := exists k, 1 <= k /\ x = 2 ^ k.

(** A cell holds the sentinel or a tile. *)
Definition cell_ok (x : Z) : Prop := x = 1 \/ power_of_two x.

Definition cells_ok (b : list (list Z)) : Prop := Forall (Forall cell_ok) b.

(** The occupied tile values of a board, as a list read row by row; the
    multiset of tiles is this list up to [Permutation]. *)
Definition tiles (b : list (list Z)) : list Z := filter occupied (concat b).

(** [merged t t']: the multiset [t'] is obtained from [t] by zero or more
    merge steps, each of which removes two equal elements [v], [v] and adds
    their sum. *)
Inductive merged : list Z -> list Z -> Prop :=
| merged_perm (t t' : list Z) :
    Permutation t t' -> merged t t'
| merged_step (v : Z) (rest t t' : list Z) :
    Permutation t (v :: v :: rest) -> merged (v + v :: rest) t' -> merged t t'.

(** The reading of the conservation sentence with a single merge: the
    multiset is unchanged, or exactly one pair was merged. *)
Definition merged_at_most_once (t t' : list Z) : Prop :=
  Permutation t t' \/
  exists v rest, Permutation t (v :: v :: rest) /\ Permutation t' (v + v :: rest).

(** ** Deciding shape and invariant on a concrete board *)

Definition cell_okb (x : Z) : bool :=
  (x =? 1) || ((1 <? x) && (x =? 2 ^ Z.log2 x)).

Definition cells_okb (b : list (list Z)) : bool := forallb (forallb cell_okb) b.

Definition board4x4b (b : list (list Z)) : bool :=
  (length b =? 4)%nat && forallb (fun row => (length row =? 4)%nat) b.

(** ** The scorer, in the words of the specification *)

(** The boustrophedon traversal anchored at the build corner (bottom
    right): the bottom row from right to left, the row above it from left
    to right, and so on up to the top row. *)
Definition snake (b : list (list Z)) : list Z :=
  match b with
  | [r0; r1; r2; r3] => rev r3 ++ r2 ++ rev r1 ++ r0
  | _ => []
  end.

(** The cells after [prev] as long as each is at most its predecessor. *)
Fixpoint noninc_run (prev : Z) (l : list Z) : list Z :=
  match l with
  | [] => []
  | x :: l' => if x <=? prev then x :: noninc_run x l' else []
  end.

(** The monotonic prefix of a traversal. *)
Definition mono_prefix (t : list Z) : list Z :=
  match t with
  | [] => []
  | x :: t' => x :: noninc_run x t'
  end.

Fixpoint nonincreasing (l : list Z) : Prop :=
  match l with
  | x :: ((y :: _) as t) => y <= x /\ nonincreasing t
  | _ => True
  end.

(** [p] is the longest non-increasing initial run of [t]: a non-empty
    non-increasing prefix that ends at the end of [t] or just before the
    first increase. *)
Definition longest_nonincreasing_prefix (p t : list Z) : Prop :=
  exists rest,
    t = p ++ rest /\ p <> [] /\ nonincreasing p /\
    (rest = [] \/ exists x rest', rest = x :: rest' /\ last p 0 < x).

(** [base ^ log2(v)] for a cell value [v]. *)
Definition weight (base v : Z) : Z := base ^ Z.log2 v.

Fixpoint zsum (l : list Z) : Z :=
  match l with
  | [] => 0
  | x :: l' => x + zsum l'
  end.

(** ** The pivot heuristic, rank by rank *)

(** The index in the sorted list of the value expected on [row]. *)
Definition pivot_index (row : Z) : Z := (rows - row - 1) * cols.

(** The move that slides a row toward its required boundary: the right
    column on even ranks (rows 3 and 1), the left column on odd ranks. *)
Definition pivot_move (row : Z) : move :=
  if (rows - row - 1) mod 2 =? 0 then Right else Left.

(** The cells of [row] in the order the scan visits them, the boundary
    cell first. *)
Definition scan_order (b : list (list Z)) (row : Z) : list Z :=
  match getitem b row with
  | Ok r => if (rows - row - 1) mod 2 =? 0 then rev r else r
  | Raise _ => []
  end.

(** The loop of [check_pivots] reaches [row]: no earlier rank returned. *)
Definition pivot_reached (b : list (list Z)) (row : Z) : Prop :=
  for_return (range_down (rows - 1) row)
    (pivot_body b (sort_desc (concat b)))
  = Ok Continue.

(** The check fires on [row] with expected value [e]: [e] exceeds 64, is
    absent from the boundary cell, and the previous rank is seated. *)
Definition pivot_fires (b : list (list Z)) (row e : Z) : Prop :=
  let board_list := sort_desc (concat b) in
  getitem board_list (pivot_index row) = Ok e /\
  64 < e /\
  (pivot_even_cond b board_list row (pivot_index row) e = Ok true \/
   pivot_odd_cond b board_list row (pivot_index row) e = Ok true).

(** ** The lookahead search, in the words of the specification *)

(** What a transform returns on a 4x4 board. *)
Definition transform (m : move) (b : list (list Z)) : list (list Z) :=
  match m with
  | Down => transpose4 (map right_line (transpose4 b))
  | Left => map left_line b
  | Right => map right_line b
  | _ => b
  end.

(** The candidate moves, in generation order. *)
Definition plies : list move := [Down; Left; Right].

(** The 27 leaves of the depth-3 expansion in generation order, each with
    its first-ply label. *)
Definition depth3_leaves (b : list (list Z))
  : list (list (list Z) * option move) :=
  flat_map (fun m1 =>
    flat_map (fun m2 =>
      map (fun m3 => (transform m3 (transform m2 (transform m1 b)), Some m1))
        plies) plies) plies.

(** The score of the scoring rule, as an integer: the sum of [4 ^ log2 v]
    over the monotonic prefix plus the sum of [3 ^ log2 v] over all
    cells. *)
Definition score_value (b : list (list Z)) : Z :=
  zsum (map (weight 4) (mono_prefix (snake b)))
  + zsum (map (weight 3) (concat b)).


(** The first element of greatest score. *)
Fixpoint first_max {L : Type} (l : list (Z * L)) : option (Z * L) :=
  match l with
  | [] => None
  | x :: l' =>
      match first_max l' with
      | None => Some x
      | Some y => if fst x <? fst y then Some y else Some x
      end
  end.

Definition good (b : list (list Z)) : Prop := board4x4 b /\ cells_ok b.

(** ** Boards used in the examples *)

Definition fixture : list (list Z) :=
  [[2; 2; 2; 1]; [4; 16; 2; 2]; [8; 64; 32; 8]; [32; 128; 512; 16384]].

Definition all_sentinel : list (list Z) :=
  [[1; 1; 1; 1]; [1; 1; 1; 1]; [1; 1; 1; 1]; [1; 1; 1; 1]].

Definition pivot_blocked : list (list Z) :=
  [[1; 1; 1; 1]; [1; 1; 1; 1]; [1; 1; 1; 1]; [128; 1; 1; 2]].

Definition pivot_elsewhere : list (list Z) :=
  [[1; 1; 1; 1]; [1; 1; 1; 1]; [128; 1; 1; 1]; [1; 1; 1; 1]].

Definition pivot_slides : list (list Z) :=
  [[1; 1; 1; 1]; [1; 1; 1; 1]; [1; 1; 1; 1]; [1; 128; 1; 1]].

Definition checkerboard : list (list Z) :=
  [[2; 4; 2; 4]; [4; 2; 4; 2]; [2; 4; 2; 4]; [4; 2; 4; 2]].

(** ** Bounded tiles, pairs merged once, and the boards of the corrections *)

(** Every cell is from 1 to [M]. *)
Definition cells_within (M : Z) (b : list (list Z)) : Prop :=
  Forall (Forall (fun x => 1 <= x <= M)) b.


(** [merged_pairs n t t']: the multiset [t'] is obtained from [t] by
    merging at most [n] disjoint pairs of equal elements of [t]: for every
    [v] of [ps] two elements [v] are removed and one element [v + v] is
    added, and the elements [kept] stay. An element produced by a merge is
    not merged again. *)
Definition merged_pairs (n : nat) (t t' : list Z) : Prop :=
  exists kept ps,
    (length ps <= n)%nat /\
    Permutation t (kept ++ flat_map (fun v => [v; v]) ps) /\
    Permutation t' (kept ++ map (fun v => v + v) ps).

(** A tile 2^27 in the build corner: [4 ^ 27] is beyond 2^53. *)
Definition rounding_board : list (list Z) :=
  [[1; 1; 1; 1]; [1; 1; 1; 1]; [1; 1; 1; 1]; [1; 1; 2; 2 ^ 27]].


(** Sixteen tiles 2^25: the least power of two for which a 4x4 board can
    score beyond 2^53. *)
Definition tiles_2_25 : list (list Z) := repeat (repeat (2 ^ 25) 4) 4.


(** [row = [8, 4, 2, 1]; board = [row, [1, 1, 1, 1], row, [8, 16, 32, 64]]]:
    rows 0 and 2 are one list object. *)
Definition shared_rows : pyboard :=
  {| objects := [[8; 4; 2; 1]; [1; 1; 1; 1]; [8; 16; 32; 64]];
     refs := [0; 1; 0; 2]%nat |}.

(** ** Notions for the further properties *)

(** No two neighbours of the list are equal. *)
Fixpoint no_equal_neighbours (l : list Z) : Prop :=
  match l with
  | x :: ((y :: _) as t) => x <> y /\ no_equal_neighbours t
  | _ => True
  end.

(** A row that [left] leaves as it is: its tiles are packed at the left
    edge and no two neighbouring tiles are equal. *)
Definition settled_left (row : list Z) : Prop :=
  left_compact row = row /\ no_equal_neighbours (filter occupied row).

(** The transform a direction label stands for. *)
Definition run (m : move) (b : list (list Z)) : result (list (list Z)) :=
  match m with
  | Down => down b
  | Left => left b
  | Right => right b
  | _ => Ok []
  end.

Definition direction (m : move) : Prop := m = Down \/ m = Left \/ m = Right.

(** A label [next_move] can return: a direction or undo. *)
Definition issued (mv : option move) : Prop :=
  exists m, mv = Some m /\ (direction m \/ m = Undo).

(** The three transforms return the board itself. *)
Definition stuck (b : list (list Z)) : Prop :=
  left b = Ok b /\ right b = Ok b /\ down b = Ok b.

(** The cell image [get_cell_image] crops when the grid has rows and
    columns. *)
Definition grid_cell {pixel : Type} (board_img : list (list pixel))
    (width rows cols row col : Z) : list (list pixel) :=
  map (fun pixels =>
         slice pixels (col * (width / cols))
           (col * (width / cols) + width / cols))
    (slice board_img (row * (len board_img / rows))
       (row * (len board_img / rows) + len board_img / rows)).

(** A board [down] accepts: a first row that is not empty, and every other
    row as long as the first. *)
Definition rectangular (b : list (list Z)) : Prop :=
  exists row0 rest,
    b = row0 :: rest /\ row0 <> [] /\
    Forall (fun row => length row = length row0) rest.

(** The results [check_pivots] can give: no priority move, or one of the
    labels left, right and undo. *)
Definition pivot_label (r : option move) : Prop :=
  r = None \/ r = Some Left \/ r = Some Right \/ r = Some Undo.

(** A board of the lookahead that carries the direction of its first
    move. *)
Definition labelled (p : list (list Z) * option move) : Prop :=
  exists m, snd p = Some m /\ direction m.

(** The positions [main] collects hold the value 1. *)
Definition sentinel_position (b : list (list Z)) (p : Z * Z) : Prop :=
  0 <= fst p /\ 0 <= snd p /\ getcell b (fst p) (snd p) = Ok 1.

(** * Part 3: lemmas and theorems *)

(** ** The transforms on concrete boards *)

Example left_2222 :
  left [[2;2;2;2];[1;1;1;1];[2;1;2;4];[4;2;2;1]]
  = Ok [[4;4;1;1];[1;1;1;1];[4;4;1;1];[4;4;1;1]].
Proof. reflexivity. Qed.

Example right_2222 :
  right [[2;2;2;2];[1;1;1;1];[2;1;2;4];[4;2;2;1]]
  = Ok [[1;1;4;4];[1;1;1;1];[1;1;4;4];[1;1;4;4]].
Proof. reflexivity. Qed.

Example left_ragged : left [[2;2];[2;2;2]] = Ok [[4;1];[4;2;1]].
Proof. reflexivity. Qed.

Example left_short_row : left [[2;2;2];[2;2]] = Raise IndexError.
Proof. reflexivity. Qed.

Example down_2222 :
  down [[2;2;2;1];[2;4;2;1];[2;4;1;1];[2;8;2;1]]
  = Ok [[1;1;1;1];[1;2;1;1];[4;8;2;1];[4;8;4;1]].
Proof. reflexivity. Qed.

Example down_ragged : down [[2;2];[2;2;2]] = Raise ValueError.
Proof. reflexivity. Qed.

Example down_empty_row : down [[]] = Raise ValueError.
Proof. reflexivity. Qed.

(** ** The transforms on 4x4 boards *)

Lemma length4_inv {A : Type} (l : list A) :
  length l = 4%nat -> exists a b c d, l = [a; b; c; d].
Proof.
  destruct l as [|a [|b [|c [|d [|e l]]]]]; cbn; try discriminate.
  intros _. now exists a, b, c, d.
Qed.

Lemma board4x4_inv (b : list (list Z)) :
  board4x4 b ->
  exists r0 r1 r2 r3, b = [r0; r1; r2; r3] /\
    length r0 = 4%nat /\ length r1 = 4%nat /\
    length r2 = 4%nat /\ length r3 = 4%nat.
Proof.
  intros [Hl Hr]. destruct (length4_inv b Hl) as (r0 & r1 & r2 & r3 & ->).
  exists r0, r1, r2, r3.
  repeat match goal with H : Forall _ (_ :: _) |- _ => inversion H; subst; clear H end.
  auto.
Qed.

Lemma for_each_cons {I S : Type} (i : I) (l : list I)
    (body : I -> S -> result S) (s : S) :
  for_each (i :: l) body s = (s' <- body i s ;; for_each l body s').
Proof. reflexivity. Qed.

(** Case analysis on every cell comparison the goal is stuck on; a test
    between two literals is evaluated. *)
#[local] Arguments Z.eqb : simpl never.

Ltac is_cell x :=
  match x with
  | 1 => idtac
  | ?v * 2 => is_var v
  | _ => is_var x
  end.

Ltac split_tests :=
  repeat (simpl;
          match goal with
          | H : ?c = _ |- context [?c] => rewrite H
          | |- context [Z.eqb ?x ?y] =>
              let v := eval cbv in (Z.eqb x y) in
              match v with
              | true => change (Z.eqb x y) with true
              | false => change (Z.eqb x y) with false
              end
          | |- context [Z.eqb ?x ?y] =>
              is_cell x; is_cell y; destruct (Z.eqb x y) eqn:?
          end);
  simpl.

Lemma left_row_loop (idx : Z) (a b c d : Z) (r0 r1 r2 r3 : list Z) :
  0 <= idx < 4 ->
  getitem [r0; r1; r2; r3] idx = Ok (left_compact [a; b; c; d]) ->
  for_each (range 3) (left_body idx) [r0; r1; r2; r3]
  = Ok (update [r0; r1; r2; r3] (Z.to_nat idx) (left_line [a; b; c; d])).
Proof.
  intros Hidx Hrow.
  assert (idx = 0 \/ idx = 1 \/ idx = 2 \/ idx = 3) as [-> | [-> | [-> | ->]]]
    by lia;
    cbn in Hrow; injection Hrow as ->;
    change (range 3) with [0; 1; 2];
    unfold left_compact, left_line, left_body, occupied;
    split_tests; reflexivity.
Qed.

Lemma right_row_loop (idx : Z) (a b c d : Z) (r0 r1 r2 r3 : list Z) :
  0 <= idx < 4 ->
  getitem [r0; r1; r2; r3] idx = Ok (right_compact [a; b; c; d]) ->
  for_each (range_down 3 0) (right_body idx) [r0; r1; r2; r3]
  = Ok (update [r0; r1; r2; r3] (Z.to_nat idx) (right_line [a; b; c; d])).
Proof.
  intros Hidx Hrow.
  assert (idx = 0 \/ idx = 1 \/ idx = 2 \/ idx = 3) as [-> | [-> | [-> | ->]]]
    by lia;
    cbn in Hrow; injection Hrow as ->;
    change (range_down 3 0) with [3; 2; 1];
    unfold right_compact, right_line, right_body, occupied;
    split_tests; reflexivity.
Qed.

(** On a 4x4 board [left] never raises and works row by row. *)
Lemma left_4x4 (b : list (list Z)) :
  board4x4 b -> left b = Ok (map left_line b).
Proof.
  intros Hb.
  destruct (board4x4_inv b Hb) as (r0 & r1 & r2 & r3 & -> & H0 & H1 & H2 & H3).
  destruct (length4_inv r0 H0) as (a0 & b0 & c0 & d0 & ->).
  destruct (length4_inv r1 H1) as (a1 & b1 & c1 & d1 & ->).
  destruct (length4_inv r2 H2) as (a2 & b2 & c2 & d2 & ->).
  destruct (length4_inv r3 H3) as (a3 & b3 & c3 & d3 & ->).
  unfold left.
  change (getitem [[a0; b0; c0; d0]; [a1; b1; c1; d1];
                   [a2; b2; c2; d2]; [a3; b3; c3; d3]] 0)
    with (Ok [a0; b0; c0; d0]).
  cbv beta iota delta [bind].
  change (len [a0; b0; c0; d0] - 1) with 3.
  change (range (len _)) with [0; 1; 2; 3].
  cbn [map].
  rewrite for_each_cons, (left_row_loop 0 a0 b0 c0 d0) by (reflexivity || lia).
  cbn [bind update Z.to_nat].
  rewrite for_each_cons, (left_row_loop 1 a1 b1 c1 d1) by (reflexivity || lia).
  change (Z.to_nat 1) with 1%nat. cbn [bind update].
  rewrite for_each_cons, (left_row_loop 2 a2 b2 c2 d2) by (reflexivity || lia).
  change (Z.to_nat 2) with 2%nat. cbn [bind update].
  rewrite for_each_cons, (left_row_loop 3 a3 b3 c3 d3) by (reflexivity || lia).
  reflexivity.
Qed.

(** On a 4x4 board [right] never raises and works row by row. *)
Lemma right_4x4 (b : list (list Z)) :
  board4x4 b -> right b = Ok (map right_line b).
Proof.
  intros Hb.
  destruct (board4x4_inv b Hb) as (r0 & r1 & r2 & r3 & -> & H0 & H1 & H2 & H3).
  destruct (length4_inv r0 H0) as (a0 & b0 & c0 & d0 & ->).
  destruct (length4_inv r1 H1) as (a1 & b1 & c1 & d1 & ->).
  destruct (length4_inv r2 H2) as (a2 & b2 & c2 & d2 & ->).
  destruct (length4_inv r3 H3) as (a3 & b3 & c3 & d3 & ->).
  unfold right.
  change (getitem [[a0; b0; c0; d0]; [a1; b1; c1; d1];
                   [a2; b2; c2; d2]; [a3; b3; c3; d3]] 0)
    with (Ok [a0; b0; c0; d0]).
  cbv beta iota delta [bind].
  change (len [a0; b0; c0; d0] - 1) with 3.
  change (range (len _)) with [0; 1; 2; 3].
  cbn [map].
  rewrite for_each_cons, (right_row_loop 0 a0 b0 c0 d0) by (reflexivity || lia).
  cbn [bind update Z.to_nat].
  rewrite for_each_cons, (right_row_loop 1 a1 b1 c1 d1) by (reflexivity || lia).
  change (Z.to_nat 1) with 1%nat. cbn [bind update].
  rewrite for_each_cons, (right_row_loop 2 a2 b2 c2 d2) by (reflexivity || lia).
  change (Z.to_nat 2) with 2%nat. cbn [bind update].
  rewrite for_each_cons, (right_row_loop 3 a3 b3 c3 d3) by (reflexivity || lia).
  reflexivity.
Qed.

(** Closes a branch whose tests contradict each other, such as
    [x * 2 = 1]. *)
Ltac absurd_tests :=
  exfalso;
  repeat match goal with
         | H : (_ =? _) = true |- _ => apply Z.eqb_eq in H
         | H : (_ =? _) = false |- _ => apply Z.eqb_neq in H
         end;
  lia.

(** One pass of the column loop of [down] rewrites column [col] of
    [down_board] and nothing else; the bottom edge is the end of the list,
    so the column is transformed like a row under [right]. *)
Lemma down_column_4x4 (col : Z)
    (a0 a1 a2 a3 b0 b1 b2 b3 c0 c1 c2 c3 d0 d1 d2 d3 : Z)
    (p0 p1 p2 p3 q0 q1 q2 q3 r0 r1 r2 r3 s0 s1 s2 s3 : Z) :
  0 <= col < 4 ->
  let b := [[a0; a1; a2; a3]; [b0; b1; b2; b3];
            [c0; c1; c2; c3]; [d0; d1; d2; d3]] in
  let db := [[p0; p1; p2; p3]; [q0; q1; q2; q3];
             [r0; r1; r2; r3]; [s0; s1; s2; s3]] in
  column db (Z.to_nat col) = [1; 1; 1; 1] ->
  down_column b 4 col db
  = Ok (set_column db (Z.to_nat col) (right_line (column b (Z.to_nat col)))).
Proof.
  intros Hcol b db Hdb. subst b db.
  assert (col = 0 \/ col = 1 \/ col = 2 \/ col = 3) as [-> | [-> | [-> | ->]]]
    by lia;
    cbn in Hdb; injection Hdb as -> -> -> ->;
    unfold down_column;
    change (range_down (4 - 1) (-1)) with [3; 2; 1; 0];
    change (range_down (4 - 1) 0) with [3; 2; 1];
    unfold down_push_body, down_merge_body, down_repush_body, down_fill_body,
      getcell, setcell, right_line, column, set_column, occupied;
    split_tests;
    first [ reflexivity | absurd_tests ].
Qed.

(** *** Facts about [merge_pairs] *)

Lemma merge_pairs_cases (P : list Z -> list Z -> Prop) :
  P [] [] ->
  (forall x, P [x] [x]) ->
  (forall x l, P l (merge_pairs l) -> P (x :: x :: l) (x * 2 :: merge_pairs l)) ->
  (forall x y l, x <> y -> P (y :: l) (merge_pairs (y :: l)) ->
                 P (x :: y :: l) (x :: merge_pairs (y :: l))) ->
  forall l, P l (merge_pairs l).
Proof.
  intros Hnil Hone Hmerge Hskip l.
  assert (Hn : forall n l, (length l <= n)%nat -> P l (merge_pairs l)).
  { induction n as [|n IH]; intros [|x [|y t]] Hl; cbn in Hl; try lia; auto.
    cbn [merge_pairs]. destruct (Z.eqb_spec x y) as [->|Hxy].
    - apply Hmerge, IH. lia.
    - apply Hskip; auto. apply IH. cbn. lia. }
  apply (Hn (length l)). lia.
Qed.

Lemma merge_pairs_length (l : list Z) :
  (length (merge_pairs l) <= length l)%nat.
Proof.
  apply (merge_pairs_cases (fun l m => (length m <= length l)%nat));
    intros; cbn in *; lia.
Qed.

Lemma filter_length_le {A : Type} (f : A -> bool) (l : list A) :
  (length (filter f l) <= length l)%nat.
Proof.
  induction l as [|x l IH]; cbn; [lia|]. destruct (f x); cbn; lia.
Qed.

Lemma left_line_length (row : list Z) :
  length (left_line row) = length row.
Proof.
  unfold left_line.
  pose proof (merge_pairs_length (filter occupied row)).
  pose proof (filter_length_le occupied row).
  rewrite length_app, repeat_length. lia.
Qed.

Lemma right_line_length (row : list Z) :
  length (right_line row) = length row.
Proof.
  unfold right_line.
  pose proof (merge_pairs_length (rev (filter occupied row))) as H.
  pose proof (filter_length_le occupied row).
  rewrite length_rev in H.
  rewrite length_app, repeat_length, length_rev. lia.
Qed.

(** On a 4x4 board [down] never raises and works column by column. *)
Lemma down_4x4 (b : list (list Z)) :
  board4x4 b -> down b = Ok (transpose4 (map right_line (transpose4 b))).
Proof.
  intros Hb.
  destruct (board4x4_inv b Hb) as (r0 & r1 & r2 & r3 & -> & H0 & H1 & H2 & H3).
  destruct (length4_inv r0 H0) as (a0 & a1 & a2 & a3 & ->).
  destruct (length4_inv r1 H1) as (b0 & b1 & b2 & b3 & ->).
  destruct (length4_inv r2 H2) as (c0 & c1 & c2 & c3 & ->).
  destruct (length4_inv r3 H3) as (d0 & d1 & d2 & d3 & ->).
  unfold down.
  change (check_row_lengths _ _) with (Ok tt).
  cbv beta iota delta [bind].
  change (len [a0; a1; a2; a3]) with 4.
  change (len [_; _; _; _]) with 4.
  change (range 4) with [0; 1; 2; 3].
  change (repeat (repeat 1 (Z.to_nat 4)) (Z.to_nat 4))
    with [[1; 1; 1; 1]; [1; 1; 1; 1]; [1; 1; 1; 1]; [1; 1; 1; 1]].
  unfold transpose4. cbn [map].
  set (b := [[a0; a1; a2; a3]; [b0; b1; b2; b3];
             [c0; c1; c2; c3]; [d0; d1; d2; d3]]).
  destruct (length4_inv (right_line (column b 0)))
    as (x0 & y0 & z0 & w0 & E0); [now rewrite right_line_length|].
  destruct (length4_inv (right_line (column b 1)))
    as (x1 & y1 & z1 & w1 & E1); [now rewrite right_line_length|].
  destruct (length4_inv (right_line (column b 2)))
    as (x2 & y2 & z2 & w2 & E2); [now rewrite right_line_length|].
  destruct (length4_inv (right_line (column b 3)))
    as (x3 & y3 & z3 & w3 & E3); [now rewrite right_line_length|].
  subst b.
  rewrite for_each_cons, down_column_4x4 by (reflexivity || lia).
  change (Z.to_nat 0) with 0%nat. rewrite E0. cbn [bind set_column combine map fst snd update].
  rewrite for_each_cons, down_column_4x4 by (reflexivity || lia).
  change (Z.to_nat 1) with 1%nat. rewrite E1. cbn [bind set_column combine map fst snd update].
  rewrite for_each_cons, down_column_4x4 by (reflexivity || lia).
  change (Z.to_nat 2) with 2%nat. rewrite E2. cbn [bind set_column combine map fst snd update].
  rewrite for_each_cons, down_column_4x4 by (reflexivity || lia).
  change (Z.to_nat 3) with 3%nat. rewrite E3. cbn [bind set_column combine map fst snd update].
  reflexivity.
Qed.

(** *** The transforms keep the invariant *)

Lemma power_of_two_double (x : Z) : power_of_two x -> power_of_two (x * 2).
Proof.
  intros (k & Hk & ->). exists (k + 1). split; [lia|].
  rewrite Z.pow_add_r by lia. reflexivity.
Qed.

Lemma power_of_two_occupied (x : Z) : power_of_two x -> occupied x = true.
Proof.
  intros (k & Hk & ->). unfold occupied.
  assert (2 ^ 1 <= 2 ^ k) by (apply Z.pow_le_mono_r; lia).
  change (2 ^ 1) with 2 in *.
  destruct (Z.eqb_spec (2 ^ k) 1); [lia | reflexivity].
Qed.

Lemma filter_occupied_tiles (row : list Z) :
  Forall cell_ok row -> Forall power_of_two (filter occupied row).
Proof.
  induction 1 as [|x row Hx _ IH]; cbn; [constructor|].
  destruct (occupied x) eqn:E; [|exact IH].
  constructor; [|exact IH].
  destruct Hx as [->|Hx]; [discriminate E | exact Hx].
Qed.

Lemma merge_pairs_tiles (l : list Z) :
  Forall power_of_two l -> Forall power_of_two (merge_pairs l).
Proof.
  apply (merge_pairs_cases
           (fun l m => Forall power_of_two l -> Forall power_of_two m)).
  - auto.
  - auto.
  - intros x t IH H. inversion H as [|? ? Hx H']; subst.
    inversion H' as [|? ? _ Ht]; subst.
    constructor; [now apply power_of_two_double | auto].
  - intros x y t _ IH H. inversion H; subst. constructor; auto.
Qed.

Lemma Forall_cell_ok_tiles (l : list Z) :
  Forall power_of_two l -> Forall cell_ok l.
Proof. apply Forall_impl. intros x Hx. now right. Qed.

Lemma Forall_cell_ok_repeat (n : nat) : Forall cell_ok (repeat 1 n).
Proof. induction n; cbn; constructor; auto. now left. Qed.

Lemma left_line_ok (row : list Z) :
  Forall cell_ok row -> Forall cell_ok (left_line row).
Proof.
  intros H. unfold left_line. apply Forall_app. split.
  - apply Forall_cell_ok_tiles, merge_pairs_tiles, filter_occupied_tiles, H.
  - apply Forall_cell_ok_repeat.
Qed.

Lemma right_line_ok (row : list Z) :
  Forall cell_ok row -> Forall cell_ok (right_line row).
Proof.
  intros H. unfold right_line. apply Forall_app. split.
  - apply Forall_cell_ok_repeat.
  - apply Forall_cell_ok_tiles, Forall_rev, merge_pairs_tiles, Forall_rev,
      filter_occupied_tiles, H.
Qed.

Lemma column_ok (b : list (list Z)) (col : nat) :
  cells_ok b -> Forall cell_ok (column b col).
Proof.
  unfold cells_ok, column. induction 1 as [|row b Hrow _ IH]; cbn; constructor; auto.
  destruct (nth_in_or_default col row 1) as [Hin | ->]; [|now left].
  rewrite Forall_forall in Hrow. auto.
Qed.

Lemma transpose4_ok (b : list (list Z)) : cells_ok b -> cells_ok (transpose4 b).
Proof.
  intros H. unfold transpose4, cells_ok. cbn [map].
  repeat constructor; now apply column_ok.
Qed.

Lemma map_line_ok (f : list Z -> list Z) (b : list (list Z)) :
  (forall row, Forall cell_ok row -> Forall cell_ok (f row)) ->
  cells_ok b -> cells_ok (map f b).
Proof.
  intros Hf. unfold cells_ok. induction 1; cbn; constructor; auto.
Qed.

Lemma map_line_4x4 (f : list Z -> list Z) (b : list (list Z)) :
  (forall row, length (f row) = length row) ->
  board4x4 b -> board4x4 (map f b).
Proof.
  intros Hf [Hl Hr]. split; [now rewrite length_map|].
  clear Hl. induction Hr; cbn; constructor; auto. now rewrite Hf.
Qed.

Lemma transpose4_4x4 (b : list (list Z)) : board4x4 b -> board4x4 (transpose4 b).
Proof.
  intros [Hl _]. unfold transpose4, column. split; [reflexivity|].
  cbn [map]. repeat constructor; now rewrite length_map.
Qed.

(** *** Facts about [merged] *)

Lemma merged_refl (t : list Z) : merged t t.
Proof. apply merged_perm, Permutation_refl. Qed.

Lemma merged_perm_l (s t t' : list Z) :
  Permutation s t -> merged t t' -> merged s t'.
Proof.
  intros Hs H. destruct H as [t t' H | v rest t t' H1 H2].
  - apply merged_perm. now transitivity t.
  - apply (merged_step v rest); [now transitivity t | exact H2].
Qed.

Lemma merged_perm_r (t t' s : list Z) :
  merged t t' -> Permutation t' s -> merged t s.
Proof.
  intros H Hs. induction H as [t t' H | v rest t t' H1 H2 IH].
  - apply merged_perm. now transitivity t'.
  - apply (merged_step v rest); auto.
Qed.

Lemma merged_trans (t1 t2 t3 : list Z) :
  merged t1 t2 -> merged t2 t3 -> merged t1 t3.
Proof.
  intros H12 H23. induction H12 as [t t' H | v rest t t' H1 H2 IH].
  - now apply (merged_perm_l t t').
  - apply (merged_step v rest); auto.
Qed.

Lemma merged_app_l (c t t' : list Z) : merged t t' -> merged (c ++ t) (c ++ t').
Proof.
  induction 1 as [t t' H | v rest t t' H1 H2 IH].
  - apply merged_perm. now apply Permutation_app_head.
  - apply (merged_step v (c ++ rest)).
    + transitivity (c ++ v :: v :: rest); [now apply Permutation_app_head|].
      symmetry.
      transitivity (v :: c ++ v :: rest);
        [constructor; apply Permutation_middle | apply Permutation_middle].
    + apply (merged_perm_l _ (c ++ (v + v) :: rest));
        [apply Permutation_middle | exact IH].
Qed.

Lemma merged_app (s s' t t' : list Z) :
  merged s s' -> merged t t' -> merged (s ++ t) (s' ++ t').
Proof.
  intros Hs Ht.
  apply (merged_trans _ (s ++ t')); [now apply merged_app_l|].
  apply (merged_perm_l _ (t' ++ s)); [apply Permutation_app_comm|].
  apply (merged_perm_r _ (t' ++ s')); [|apply Permutation_app_comm].
  now apply merged_app_l.
Qed.

Lemma merged_cons (c : Z) (t t' : list Z) : merged t t' -> merged (c :: t) (c :: t').
Proof. apply (merged_app_l [c]). Qed.

Lemma merge_pairs_merged (l : list Z) : merged l (merge_pairs l).
Proof.
  apply (merge_pairs_cases merged).
  - apply merged_refl.
  - intros x. apply merged_refl.
  - intros x t IH. apply (merged_step x t); [apply Permutation_refl|].
    replace (x + x) with (x * 2) by lia. now apply merged_cons.
  - intros x y t _ IH. now apply merged_cons.
Qed.

(** A merge never produces the sentinel, so the tiles of a transformed
    line are exactly the merged tiles. *)
Lemma merge_pairs_occupied (l : list Z) :
  Forall (fun x => occupied x = true) l ->
  Forall (fun x => occupied x = true) (merge_pairs l).
Proof.
  apply (merge_pairs_cases
           (fun l m => Forall (fun x => occupied x = true) l ->
                       Forall (fun x => occupied x = true) m)); auto.
  - intros x t IH H. inversion H as [|? ? _ H']; subst.
    inversion H' as [|? ? _ Ht]; subst.
    constructor; auto. unfold occupied.
    destruct (Z.eqb_spec (x * 2) 1); [lia | reflexivity].
  - intros x y t _ IH H. inversion H; subst. constructor; auto.
Qed.

Lemma filter_occupied_all (l : list Z) :
  Forall (fun x => occupied x = true) (filter occupied l).
Proof.
  induction l as [|x l IH]; cbn; [constructor|].
  destruct (occupied x) eqn:E; auto.
Qed.

Lemma filter_all {A : Type} (f : A -> bool) (l : list A) :
  Forall (fun x => f x = true) l -> filter f l = l.
Proof.
  induction 1 as [|x l Hx _ IH]; cbn; [reflexivity|]. now rewrite Hx, IH.
Qed.

Lemma filter_occupied_repeat (n : nat) : filter occupied (repeat 1 n) = [].
Proof. induction n; cbn; auto. Qed.

Lemma left_line_tiles (row : list Z) :
  filter occupied (left_line row) = merge_pairs (filter occupied row).
Proof.
  unfold left_line. rewrite filter_app, filter_occupied_repeat, app_nil_r.
  apply filter_all, merge_pairs_occupied, filter_occupied_all.
Qed.

Lemma right_line_tiles (row : list Z) :
  filter occupied (right_line row)
  = rev (merge_pairs (rev (filter occupied row))).
Proof.
  unfold right_line. rewrite filter_app, filter_occupied_repeat. cbn [app].
  apply filter_all, Forall_rev, merge_pairs_occupied, Forall_rev,
    filter_occupied_all.
Qed.

Lemma left_line_merged (row : list Z) :
  merged (filter occupied row) (filter occupied (left_line row)).
Proof. rewrite left_line_tiles. apply merge_pairs_merged. Qed.

Lemma right_line_merged (row : list Z) :
  merged (filter occupied row) (filter occupied (right_line row)).
Proof.
  rewrite right_line_tiles.
  apply (merged_perm_l _ (rev (filter occupied row))); [apply Permutation_rev|].
  apply (merged_perm_r _ (merge_pairs (rev (filter occupied row))));
    [apply merge_pairs_merged | apply Permutation_rev].
Qed.

Lemma tiles_cons (row : list Z) (b : list (list Z)) :
  tiles (row :: b) = filter occupied row ++ tiles b.
Proof. unfold tiles. cbn [concat]. apply filter_app. Qed.

Lemma map_line_merged (f : list Z -> list Z) (b : list (list Z)) :
  (forall row, merged (filter occupied row) (filter occupied (f row))) ->
  merged (tiles b) (tiles (map f b)).
Proof.
  intros Hf. induction b as [|row b IH]; cbn [map].
  - apply merged_refl.
  - rewrite !tiles_cons. now apply merged_app.
Qed.

Lemma Permutation_filter_occupied (l l' : list Z) :
  Permutation l l' -> Permutation (filter occupied l) (filter occupied l').
Proof.
  induction 1 as [|x l l' _ IH|x y l|l l' l'' _ IH1 _ IH2]; cbn.
  - constructor.
  - destruct (occupied x); auto.
  - destruct (occupied x), (occupied y); auto using Permutation_refl.
    apply perm_swap.
  - now transitivity (filter occupied l').
Qed.

(** Moves the head of the left list to its place in the right list. *)
Ltac split_at a r :=
  match r with
  | a :: ?t => constr:((@nil Z, t))
  | ?h :: ?t =>
      match split_at a t with
      | (?l1, ?l2) => constr:((h :: l1, l2))
      end
  end.

Ltac perm_cells :=
  repeat match goal with
         | |- Permutation [] [] => constructor
         | |- Permutation (?a :: ?l) ?r =>
             match split_at a r with
             | (?l1, ?l2) =>
                 change r with (l1 ++ a :: l2);
                 apply Permutation_cons_app; cbn [app]
             end
         end.

Lemma transpose4_tiles (b : list (list Z)) :
  board4x4 b -> Permutation (tiles b) (tiles (transpose4 b)).
Proof.
  intros Hb.
  destruct (board4x4_inv b Hb) as (r0 & r1 & r2 & r3 & -> & H0 & H1 & H2 & H3).
  destruct (length4_inv r0 H0) as (a0 & a1 & a2 & a3 & ->).
  destruct (length4_inv r1 H1) as (b0 & b1 & b2 & b3 & ->).
  destruct (length4_inv r2 H2) as (c0 & c1 & c2 & c3 & ->).
  destruct (length4_inv r3 H3) as (d0 & d1 & d2 & d3 & ->).
  apply Permutation_filter_occupied. cbn. perm_cells.
Qed.

Lemma down_merged (b : list (list Z)) :
  board4x4 b ->
  merged (tiles b) (tiles (transpose4 (map right_line (transpose4 b)))).
Proof.
  intros Hb.
  apply (merged_perm_l _ (tiles (transpose4 b))); [now apply transpose4_tiles|].
  apply (merged_perm_r _ (tiles (map right_line (transpose4 b)))).
  - apply map_line_merged, right_line_merged.
  - apply transpose4_tiles, map_line_4x4, transpose4_4x4, Hb.
    apply right_line_length.
Qed.

(** *** Deciding shape and invariant *)

Lemma cell_okb_sound (x : Z) : cell_okb x = true -> cell_ok x.
Proof.
  unfold cell_okb, cell_ok, power_of_two. intros H.
  apply orb_true_iff in H. destruct H as [H | H].
  - left. now apply Z.eqb_eq.
  - right. apply andb_true_iff in H. destruct H as [H1 H2].
    apply Z.ltb_lt in H1. apply Z.eqb_eq in H2.
    exists (Z.log2 x). split; [|exact H2].
    assert (0 < Z.log2 x) by (apply Z.log2_pos; lia). lia.
Qed.

Lemma cells_okb_sound (b : list (list Z)) : cells_okb b = true -> cells_ok b.
Proof.
  unfold cells_okb, cells_ok. intros H.
  rewrite forallb_forall in H. apply Forall_forall. intros row Hrow.
  specialize (H row Hrow). rewrite forallb_forall in H.
  apply Forall_forall. intros x Hx. apply cell_okb_sound. auto.
Qed.

Lemma board4x4b_sound (b : list (list Z)) : board4x4b b = true -> board4x4 b.
Proof.
  unfold board4x4b, board4x4. intros H.
  apply andb_true_iff in H. destruct H as [H1 H2].
  apply Nat.eqb_eq in H1. split; [exact H1|].
  rewrite forallb_forall in H2. apply Forall_forall. intros row Hrow.
  apply Nat.eqb_eq. auto.
Qed.


(** ** The transforms: shape, invariant, conservation, no chain merges *)

(** C5. No chain merges. On every 4x4 board each transform compacts every
    line, merges once per pair scanning from the target edge inward
    ([merge_pairs] steps over a cell it has just produced, so the cell takes
    part in no further merge of the same call) and pads: [left] on rows with
    the left edge as target, [right] on rows and [down] on columns with the
    far edge as target. In particular the row [2,2,2,2] becomes [4,4,1,1]
    under [left], not [8,1,1,1]. *)
Theorem no_chain_merges :
  (forall b, board4x4 b ->
     left b = Ok (map left_line b) /\
     right b = Ok (map right_line b) /\
     down b = Ok (transpose4 (map right_line (transpose4 b)))) /\
  left [[2; 2; 2; 2]; [1; 1; 1; 1]; [1; 1; 1; 1]; [1; 1; 1; 1]]
  = Ok [[4; 4; 1; 1]; [1; 1; 1; 1]; [1; 1; 1; 1]; [1; 1; 1; 1]] /\
  left [[2; 2; 2; 2]; [1; 1; 1; 1]; [1; 1; 1; 1]; [1; 1; 1; 1]]
  <> Ok [[8; 1; 1; 1]; [1; 1; 1; 1]; [1; 1; 1; 1]; [1; 1; 1; 1]].
Proof.
  split; [|split].
  - intros b Hb. split; [|split].
    + now apply left_4x4.
    + now apply right_4x4.
    + now apply down_4x4.
  - reflexivity.
  - discriminate.
Qed.

Lemma no_chain_merges_witness :
  board4x4 [[2; 2; 4; 1]; [4; 4; 8; 1]; [2; 2; 2; 2]; [1; 2; 2; 4]] /\
  left [[2; 2; 4; 1]; [4; 4; 8; 1]; [2; 2; 2; 2]; [1; 2; 2; 4]]
  = Ok [[4; 4; 1; 1]; [8; 8; 1; 1]; [4; 4; 1; 1]; [4; 4; 1; 1]].
Proof.
  assert (H : board4x4 [[2; 2; 4; 1]; [4; 4; 8; 1]; [2; 2; 2; 2]; [1; 2; 2; 4]])
    by (apply board4x4b_sound; reflexivity).
  split; [exact H|].
  exact (proj1 (proj1 no_chain_merges _ H)).
Defined.

(** C7. Sentinel invariant. On a 4x4 board whose cells are all the sentinel
    or a power of two >= 2, each of [left], [right] and [down] returns a 4x4
    board whose cells are again all the sentinel or a power of two >= 2. *)
Theorem transforms_keep_invariant (b : list (list Z)) :
  board4x4 b -> cells_ok b ->
  (exists b', left b = Ok b' /\ board4x4 b' /\ cells_ok b') /\
  (exists b', right b = Ok b' /\ board4x4 b' /\ cells_ok b') /\
  (exists b', down b = Ok b' /\ board4x4 b' /\ cells_ok b').
Proof.
  intros Hb Hc. split; [|split].
  - exists (map left_line b). split; [now apply left_4x4|]. split.
    + apply map_line_4x4; [apply left_line_length | exact Hb].
    + apply map_line_ok; [apply left_line_ok | exact Hc].
  - exists (map right_line b). split; [now apply right_4x4|]. split.
    + apply map_line_4x4; [apply right_line_length | exact Hb].
    + apply map_line_ok; [apply right_line_ok | exact Hc].
  - exists (transpose4 (map right_line (transpose4 b))).
    split; [now apply down_4x4|]. split.
    + apply transpose4_4x4, map_line_4x4, transpose4_4x4, Hb.
      apply right_line_length.
    + apply transpose4_ok, map_line_ok, transpose4_ok, Hc.
      apply right_line_ok.
Qed.

Lemma transforms_keep_invariant_witness :
  board4x4 fixture /\ cells_ok fixture /\
  (exists b', left fixture = Ok b' /\ board4x4 b' /\ cells_ok b') /\
  (exists b', right fixture = Ok b' /\ board4x4 b' /\ cells_ok b') /\
  (exists b', down fixture = Ok b' /\ board4x4 b' /\ cells_ok b').
Proof.
  split; [apply board4x4b_sound; reflexivity|].
  split; [apply cells_okb_sound; reflexivity|].
  apply (transforms_keep_invariant fixture).
  - apply board4x4b_sound. reflexivity.
  - apply cells_okb_sound. reflexivity.
Defined.

Lemma transpose4_involutive (b : list (list Z)) :
  board4x4 b -> transpose4 (transpose4 b) = b.
Proof.
  intros Hb.
  destruct (board4x4_inv b Hb) as (r0 & r1 & r2 & r3 & -> & H0 & H1 & H2 & H3).
  destruct (length4_inv r0 H0) as (a0 & a1 & a2 & a3 & ->).
  destruct (length4_inv r1 H1) as (b0 & b1 & b2 & b3 & ->).
  destruct (length4_inv r2 H2) as (c0 & c1 & c2 & c3 & ->).
  destruct (length4_inv r3 H3) as (d0 & d1 & d2 & d3 & ->).
  reflexivity.
Qed.

(** *** Pairs merged once *)

Lemma merge_pairs_pairs (l : list Z) :
  exists kept ps,
    (2 * length ps + length kept = length l)%nat /\
    Permutation l (kept ++ flat_map (fun v => [v; v]) ps) /\
    Permutation (merge_pairs l) (kept ++ map (fun v => v + v) ps).
Proof.
  apply (merge_pairs_cases
           (fun l m =>
              exists kept ps,
                (2 * length ps + length kept = length l)%nat /\
                Permutation l (kept ++ flat_map (fun v => [v; v]) ps) /\
                Permutation m (kept ++ map (fun v => v + v) ps))).
  - exists [], []. cbn. auto.
  - intros x. exists [x], []. cbn. auto.
  - intros x t (kept & ps & Hlen & Ht & Hm).
    exists kept, (x :: ps). split; [cbn [length]; lia|]. split.
    + cbn [flat_map app].
      transitivity (x :: x :: kept ++ flat_map (fun v => [v; v]) ps);
        [now do 2 apply perm_skip|].
      transitivity (x :: kept ++ x :: flat_map (fun v => [v; v]) ps);
        [apply perm_skip, Permutation_middle | apply Permutation_middle].
    + cbn [map]. replace (x * 2) with (x + x) by lia.
      transitivity (x + x :: kept ++ map (fun v => v + v) ps);
        [now apply perm_skip | apply Permutation_middle].
  - intros x y t _ (kept & ps & Hlen & Ht & Hm).
    exists (x :: kept), ps. split; [cbn [length] in *; lia|].
    split; cbn [app]; now apply perm_skip.
Qed.

Lemma merged_pairs_perm (n : nat) (s s' t t' : list Z) :
  Permutation s t -> Permutation s' t' ->
  merged_pairs n t t' -> merged_pairs n s s'.
Proof.
  intros Hs Hs' (kept & ps & Hn & Ht & Ht').
  exists kept, ps. split; [exact Hn|].
  split; [now rewrite Hs | now rewrite Hs'].
Qed.

Lemma merged_pairs_app (n m : nat) (s s' t t' : list Z) :
  merged_pairs n s s' -> merged_pairs m t t' ->
  merged_pairs (n + m) (s ++ t) (s' ++ t').
Proof.
  intros (k1 & p1 & Hn & Hs & Hs') (k2 & p2 & Hm & Ht & Ht').
  exists (k1 ++ k2), (p1 ++ p2). split; [rewrite length_app; lia|]. split.
  - rewrite flat_map_app, Hs, Ht, <- !app_assoc.
    apply Permutation_app_head. rewrite !app_assoc.
    apply Permutation_app_tail, Permutation_app_comm.
  - rewrite map_app, Hs', Ht', <- !app_assoc.
    apply Permutation_app_head. rewrite !app_assoc.
    apply Permutation_app_tail, Permutation_app_comm.
Qed.

(** A line of four cells has at most four tiles, so at most two pairs. *)
Lemma left_line_pairs (row : list Z) :
  length row = 4%nat ->
  merged_pairs 2 (filter occupied row) (filter occupied (left_line row)).
Proof.
  intros Hrow. rewrite left_line_tiles.
  destruct (merge_pairs_pairs (filter occupied row))
    as (kept & ps & Hlen & Hl & Hm).
  exists kept, ps. split; [|split; assumption].
  pose proof (filter_length_le occupied row). lia.
Qed.

Lemma right_line_pairs (row : list Z) :
  length row = 4%nat ->
  merged_pairs 2 (filter occupied row) (filter occupied (right_line row)).
Proof.
  intros Hrow. rewrite right_line_tiles.
  destruct (merge_pairs_pairs (rev (filter occupied row)))
    as (kept & ps & Hlen & Hl & Hm).
  exists kept, ps. split; [|split].
  - pose proof (filter_length_le occupied row).
    rewrite length_rev in Hlen. lia.
  - now rewrite (Permutation_rev (filter occupied row)).
  - now rewrite <- Permutation_rev.
Qed.

Lemma map_line_lines (f : list Z -> list Z) (b : list (list Z)) :
  Forall (fun row => length row = 4%nat) b ->
  (forall row, length row = 4%nat ->
     merged_pairs 2 (filter occupied row) (filter occupied (f row))) ->
  Forall2 (fun line line' =>
             merged_pairs 2 (filter occupied line) (filter occupied line'))
    b (map f b).
Proof.
  intros Hb Hf. induction Hb as [|row b Hrow _ IH]; cbn [map]; constructor;
    auto.
Qed.

Lemma map_line_pairs (f : list Z -> list Z) (b : list (list Z)) :
  Forall (fun row => length row = 4%nat) b ->
  (forall row, length row = 4%nat ->
     merged_pairs 2 (filter occupied row) (filter occupied (f row))) ->
  merged_pairs (2 * length b) (tiles b) (tiles (map f b)).
Proof.
  intros Hb Hf. induction Hb as [|row b Hrow _ IH]; cbn [map].
  - exists [], []. cbn. auto.
  - rewrite !tiles_cons.
    replace (2 * length (row :: b))%nat with (2 + 2 * length b)%nat
      by (cbn [length]; lia).
    apply merged_pairs_app; auto.
Qed.

(** C2, as the code has it. Conservation: for each transform on a 4x4
    board, the occupied tiles of every line of the output (a row for
    [left] and [right], a column for [down]) are those of the same line of
    the input with at most two disjoint pairs of equal tiles merged, each
    pair replaced by one tile equal to its sum, and a tile produced by a
    merge is not merged again. Over the whole board at most eight pairs
    are merged in a call, so the multiset of tiles can shrink by more than
    one element. *)
Theorem transforms_conserve_tiles (b : list (list Z)) :
  board4x4 b ->
  (exists b', left b = Ok b' /\
     Forall2 (fun line line' =>
                merged_pairs 2 (filter occupied line) (filter occupied line'))
       b b' /\
     merged_pairs 8 (tiles b) (tiles b')) /\
  (exists b', right b = Ok b' /\
     Forall2 (fun line line' =>
                merged_pairs 2 (filter occupied line) (filter occupied line'))
       b b' /\
     merged_pairs 8 (tiles b) (tiles b')) /\
  (exists b', down b = Ok b' /\
     Forall2 (fun line line' =>
                merged_pairs 2 (filter occupied line) (filter occupied line'))
       (transpose4 b) (transpose4 b') /\
     merged_pairs 8 (tiles b) (tiles b')).
Proof.
  intros Hb. pose proof Hb as [Hlen Hrows]. split; [|split].
  - exists (map left_line b). split; [now apply left_4x4|]. split.
    + apply map_line_lines; [exact Hrows | apply left_line_pairs].
    + change 8%nat with (2 * 4)%nat. rewrite <- Hlen.
      apply map_line_pairs; [exact Hrows | apply left_line_pairs].
  - exists (map right_line b). split; [now apply right_4x4|]. split.
    + apply map_line_lines; [exact Hrows | apply right_line_pairs].
    + change 8%nat with (2 * 4)%nat. rewrite <- Hlen.
      apply map_line_pairs; [exact Hrows | apply right_line_pairs].
  - exists (transpose4 (map right_line (transpose4 b))).
    split; [now apply down_4x4|].
    pose proof (transpose4_4x4 b Hb) as [Hlen' Hcols].
    assert (Hmid : board4x4 (map right_line (transpose4 b)))
      by (apply map_line_4x4; [apply right_line_length|];
          now apply transpose4_4x4).
    split.
    + rewrite (transpose4_involutive _ Hmid).
      apply map_line_lines; [exact Hcols | apply right_line_pairs].
    + apply (merged_pairs_perm _ _ _ (tiles (transpose4 b))
               (tiles (map right_line (transpose4 b)))).
      * now apply transpose4_tiles.
      * symmetry. now apply transpose4_tiles.
      * change 8%nat with (2 * 4)%nat. rewrite <- Hlen'.
        apply map_line_pairs; [exact Hcols | apply right_line_pairs].
Qed.

Lemma transforms_conserve_tiles_witness :
  board4x4 fixture /\
  (exists b', left fixture = Ok b' /\
     Forall2 (fun line line' =>
                merged_pairs 2 (filter occupied line) (filter occupied line'))
       fixture b' /\
     merged_pairs 8 (tiles fixture) (tiles b')) /\
  (exists b', right fixture = Ok b' /\
     Forall2 (fun line line' =>
                merged_pairs 2 (filter occupied line) (filter occupied line'))
       fixture b' /\
     merged_pairs 8 (tiles fixture) (tiles b')) /\
  (exists b', down fixture = Ok b' /\
     Forall2 (fun line line' =>
                merged_pairs 2 (filter occupied line) (filter occupied line'))
       (transpose4 fixture) (transpose4 b') /\
     merged_pairs 8 (tiles fixture) (tiles b')).
Proof.
  split; [apply board4x4b_sound; reflexivity|].
  apply (transforms_conserve_tiles fixture).
  apply board4x4b_sound. reflexivity.
Defined.

(** C2, as the spec states it, fails: one call of [left] on a board with
    the row [2,2,2,2] merges two pairs, so the multiset of tiles goes from
    {2,2,2,2} to {4,4}: it neither stays the same nor shrinks by exactly one
    element. *)
Lemma conservation_counterexample :
  let b := [[2; 2; 2; 2]; [1; 1; 1; 1]; [1; 1; 1; 1]; [1; 1; 1; 1]] in
  let b' := [[4; 4; 1; 1]; [1; 1; 1; 1]; [1; 1; 1; 1]; [1; 1; 1; 1]] in
  board4x4 b /\ left b = Ok b' /\ ~ merged_at_most_once (tiles b) (tiles b').
Proof.
  cbv zeta. split; [apply board4x4b_sound; reflexivity|].
  split; [reflexivity|].
  change (~ merged_at_most_once [2; 2; 2; 2] [4; 4]).
  intros [H | (v & rest & H1 & H2)].
  - apply Permutation_length in H. discriminate H.
  - apply Permutation_length in H1, H2. cbn in H1, H2. lia.
Qed.

(** C3. Only [down] validates its input. On the ragged board
    [[2,2],[2,2,2],[2,2],[2,2]] it raises ValueError before doing any work,
    but [left], [right] and [score] go on and return a result; on a board
    with one empty row [left] and [right] return it unchanged, and on the
    empty board they fail with IndexError at [board[0]], not with the
    invalid-input error. *)
Theorem malformed_board_not_rejected :
  let ragged := [[2; 2]; [2; 2; 2]; [2; 2]; [2; 2]] in
  down ragged = Raise ValueError /\
  left ragged = Ok [[4; 1]; [4; 2; 1]; [4; 1]; [4; 1]] /\
  right ragged = Ok [[1; 4]; [1; 4; 2]; [1; 4]; [1; 4]] /\
  score (fresh ragged) = Done (Exact 63) /\
  down [[]] = Raise ValueError /\
  left [[]] = Ok [[]] /\
  right [[]] = Ok [[]] /\
  down [] = Raise ValueError /\
  left [] = Raise IndexError /\
  right [] = Raise IndexError.
Proof. cbv zeta. repeat split; vm_compute; reflexivity. Qed.

(** *** Facts about the monotonic prefix *)

Example fixture_path :
  find_longest_path (fresh fixture) = Ok [16384; 512; 128; 32; 8].
Proof. reflexivity. Qed.

Lemma path_loop_run (l acc : list Z) (last : Z) :
  path_loop l acc last = acc ++ noninc_run last l.
Proof.
  revert acc last. induction l as [|x l IH]; intros acc last; cbn.
  - now rewrite app_nil_r.
  - destruct (x <=? last); [|now rewrite app_nil_r].
    rewrite IH, <- app_assoc. reflexivity.
Qed.

Lemma noninc_run_longest (prev : Z) (l : list Z) :
  exists rest,
    l = noninc_run prev l ++ rest /\
    nonincreasing (prev :: noninc_run prev l) /\
    (rest = [] \/
     exists x rest', rest = x :: rest' /\ last (prev :: noninc_run prev l) 0 < x).
Proof.
  revert prev. induction l as [|x l IH]; intros prev.
  - exists []. cbn. auto.
  - cbn [noninc_run]. destruct (Z.leb_spec x prev) as [Hle | Hgt].
    + destruct (IH x) as (rest & Heq & Hmono & Hmax).
      exists rest. split; [cbn; now rewrite <- Heq|].
      split; [cbn; split; [exact Hle | exact Hmono]|].
      destruct Hmax as [-> | (y & rest' & -> & Hy)]; [now left|].
      right. exists y, rest'. split; [reflexivity|exact Hy].
    + exists (x :: l). split; [reflexivity|]. split; [exact I|].
      right. exists x, l. split; [reflexivity | exact Hgt].
Qed.

Lemma mono_prefix_longest (t : list Z) :
  t <> [] -> longest_nonincreasing_prefix (mono_prefix t) t.
Proof.
  destruct t as [|x t]; [congruence|]. intros _.
  destruct (noninc_run_longest x t) as (rest & Heq & Hmono & Hmax).
  exists rest. cbn [mono_prefix]. split; [cbn; now rewrite <- Heq|].
  split; [discriminate|]. split; assumption.
Qed.

Lemma noninc_run_Forall (P : Z -> Prop) (prev : Z) (l : list Z) :
  Forall P l -> Forall P (noninc_run prev l).
Proof.
  intros H. revert prev. induction H as [|x l Hx _ IH]; intros prev; cbn.
  - constructor.
  - destruct (x <=? prev); constructor; auto.
Qed.

Lemma mono_prefix_Forall (P : Z -> Prop) (t : list Z) :
  Forall P t -> Forall P (mono_prefix t).
Proof.
  intros H. destruct H as [|x t Hx Ht]; cbn; constructor; auto.
  now apply noninc_run_Forall.
Qed.

Lemma concat_Forall (P : Z -> Prop) (b : list (list Z)) :
  Forall (Forall P) b -> Forall P (concat b).
Proof.
  induction 1 as [|row b Hrow _ IH]; cbn; [constructor|].
  apply Forall_app. auto.
Qed.

Lemma snake_Forall (P : Z -> Prop) (b : list (list Z)) :
  Forall (Forall P) b -> Forall P (snake b).
Proof.
  intros H. unfold snake.
  destruct b as [|r0 [|r1 [|r2 [|r3 [|r4 b]]]]]; try constructor.
  repeat match goal with
         | H : Forall _ (_ :: _) |- _ => inversion H; subst; clear H
         end.
  repeat (apply Forall_app; split); auto using Forall_rev.
Qed.

#[local] Arguments path_loop : simpl never.

(** On a 4x4 board whose rows are distinct objects [find_longest_path]
    returns the monotonic prefix of the snake traversal. *)
Lemma find_longest_path_4x4 (b : list (list Z)) :
  board4x4 b -> find_longest_path (fresh b) = Ok (mono_prefix (snake b)).
Proof.
  intros Hb.
  destruct (board4x4_inv b Hb) as (r0 & r1 & r2 & r3 & -> & H0 & H1 & H2 & H3).
  destruct (length4_inv r0 H0) as (a0 & a1 & a2 & a3 & ->).
  destruct (length4_inv r1 H1) as (b0 & b1 & b2 & b3 & ->).
  destruct (length4_inv r2 H2) as (c0 & c1 & c2 & c3 & ->).
  destruct (length4_inv r3 H3) as (d0 & d1 & d2 & d3 & ->).
  unfold find_longest_path. simpl.
  rewrite path_loop_run. cbn [app noninc_run].
  now rewrite Z.leb_refl.
Qed.

(** ** The pivot heuristic *)

Lemma insert_desc_length (x : Z) (l : list Z) :
  length (insert_desc x l) = S (length l).
Proof.
  induction l as [|y l IH]; cbn; [reflexivity|].
  destruct (y <? x); cbn; [reflexivity | now rewrite IH].
Qed.

Lemma sort_desc_length (l : list Z) : length (sort_desc l) = length l.
Proof.
  induction l as [|x l IH]; [reflexivity|].
  change (sort_desc (x :: l)) with (insert_desc x (sort_desc l)).
  now rewrite insert_desc_length, IH.
Qed.

Lemma concat_4x4_length (b : list (list Z)) :
  board4x4 b -> length (concat b) = 16%nat.
Proof.
  intros Hb.
  destruct (board4x4_inv b Hb) as (r0 & r1 & r2 & r3 & -> & H0 & H1 & H2 & H3).
  cbn. rewrite !length_app, H0, H1, H2, H3. reflexivity.
Qed.

Lemma length16_inv {A : Type} (l : list A) :
  length l = 16%nat ->
  exists x0 x1 x2 x3 x4 x5 x6 x7 x8 x9 x10 x11 x12 x13 x14 x15,
    l = [x0; x1; x2; x3; x4; x5; x6; x7; x8; x9; x10; x11; x12; x13; x14; x15].
Proof.
  intros H.
  do 16 (destruct l as [|? l]; [discriminate H|]).
  destruct l; [|discriminate H].
  repeat eexists.
Qed.

#[local] Arguments Z.leb : simpl never.

(** Case analysis on the tests of the pivot loop. *)
Ltac split_pivot_tests :=
  repeat (simpl;
          match goal with
          | H : ?c = _ |- context [?c] => rewrite H
          | |- context [Z.eqb ?x ?y] =>
              let v := eval cbv in (Z.eqb x y) in
              match v with
              | true => change (Z.eqb x y) with true
              | false => change (Z.eqb x y) with false
              end
          | |- context [Z.leb ?x 64] => is_var x; destruct (Z.leb x 64) eqn:?
          | |- context [Z.eqb ?x ?y] =>
              is_cell x; is_cell y; destruct (Z.eqb x y) eqn:?
          end);
  simpl.

(** The loop of [check_pivots] over any sorted list of 16 values. *)
Lemma pivot_loop_total (b : list (list Z)) (board_list : list Z) :
  board4x4 b -> length board_list = 16%nat ->
  exists c,
    for_return (range_down (rows - 1) (-1)) (pivot_body b board_list) = Ok c /\
    (c = Continue \/ c = Return None \/ c = Return (Some Left) \/
     c = Return (Some Right) \/ c = Return (Some Undo)).
Proof.
  intros Hb Hl.
  destruct (board4x4_inv b Hb) as (r0 & r1 & r2 & r3 & -> & H0 & H1 & H2 & H3).
  destruct (length4_inv r0 H0) as (a0 & a1 & a2 & a3 & ->).
  destruct (length4_inv r1 H1) as (b0 & b1 & b2 & b3 & ->).
  destruct (length4_inv r2 H2) as (c0 & c1 & c2 & c3 & ->).
  destruct (length4_inv r3 H3) as (d0 & d1 & d2 & d3 & ->).
  destruct (length16_inv board_list Hl)
    as (x0 & x1 & x2 & x3 & x4 & x5 & x6 & x7 & x8 & x9 & x10 & x11 & x12
        & x13 & x14 & x15 & ->).
  change (range_down (rows - 1) (-1)) with [3; 2; 1; 0].
  unfold pivot_body, pivot_even_cond, pivot_odd_cond, pivot_scan_body, rows, cols.
  change (range_down (4 - 1) (-1)) with [3; 2; 1; 0].
  change (range 4) with [0; 1; 2; 3].
  split_pivot_tests;
    eexists; (split; [reflexivity|]); auto 6.
Qed.

(** *** The pivot heuristic, rank by rank *)

Lemma for_return_cons {R : Type} (i : Z) (l : list Z)
    (body : Z -> result (ctl R)) :
  for_return (i :: l) body
  = (c <- body i ;;
     match c with
     | Return r => Ok (Return r)
     | Continue => for_return l body
     end).
Proof. reflexivity. Qed.

Lemma for_return_app {R : Type} (l1 l2 : list Z)
    (body : Z -> result (ctl R)) :
  for_return l1 body = Ok Continue ->
  for_return (l1 ++ l2) body = for_return l2 body.
Proof.
  induction l1 as [|i l1 IH]; intros H; [reflexivity|].
  cbn [app]. rewrite for_return_cons in *.
  destruct (body i) as [[r|]|e]; cbn in *; try discriminate. auto.
Qed.

Ltac use_tests_in H :=
  repeat match type of H with
         | context [?c] =>
             match goal with
             | E : c = _ |- _ => rewrite E in H
             end
         end.

(** What the loop body does on a row where the check fires: the first
    occupied cell in scan order decides. *)
Lemma pivot_body_fires (b : list (list Z)) (board_list : list Z) (row e : Z) :
  board4x4 b -> length board_list = 16%nat -> 0 <= row <= 3 ->
  getitem board_list (pivot_index row) = Ok e ->
  64 < e ->
  (pivot_even_cond b board_list row (pivot_index row) e = Ok true \/
   pivot_odd_cond b board_list row (pivot_index row) e = Ok true) ->
  pivot_body b board_list row
  = Ok match filter occupied (scan_order b row) with
       | x :: _ => Return (Some (if x =? e then pivot_move row else Undo))
       | [] => Continue
       end.
Proof.
  intros Hb Hl Hrow Hget Hgt Hcond.
  destruct (board4x4_inv b Hb) as (r0 & r1 & r2 & r3 & -> & H0 & H1 & H2 & H3).
  destruct (length4_inv r0 H0) as (a0 & a1 & a2 & a3 & ->).
  destruct (length4_inv r1 H1) as (b0 & b1 & b2 & b3 & ->).
  destruct (length4_inv r2 H2) as (c0 & c1 & c2 & c3 & ->).
  destruct (length4_inv r3 H3) as (d0 & d1 & d2 & d3 & ->).
  destruct (length16_inv board_list Hl)
    as (x0 & x1 & x2 & x3 & x4 & x5 & x6 & x7 & x8 & x9 & x10 & x11 & x12
        & x13 & x14 & x15 & ->).
  apply Z.leb_gt in Hgt.
  assert (row = 3 \/ row = 2 \/ row = 1 \/ row = 0) as [-> | [-> | [-> | ->]]]
    by lia;
    cbn in Hget; injection Hget as <-;
    unfold pivot_body, scan_order, pivot_move, pivot_index, occupied,
      pivot_scan_body, pivot_even_cond, pivot_odd_cond, rows, cols;
    unfold pivot_index, pivot_even_cond, pivot_odd_cond, rows, cols in Hcond;
    change (range_down (4 - 1) (-1)) with [3; 2; 1; 0];
    change (range 4) with [0; 1; 2; 3];
    simpl; rewrite Hgt;
    (destruct Hcond as [Hc | Hc]; simpl in Hc; try discriminate Hc);
    split_pivot_tests; use_tests_in Hc; simpl in Hc;
    first [ reflexivity | discriminate Hc ].
Qed.

(** C4, as the code has it. When the check fires on a row that the loop
    reaches, the first occupied cell of that row in scan order (from the
    required boundary inward) decides: if it holds the expected value,
    [check_pivots] returns right (even ranks) or left (odd ranks), the move
    that slides it into the boundary cell; if it holds another value,
    [check_pivots] returns undo, also when the expected value lies further
    along the row; if the row is empty, this rank decides nothing and the
    result is that of the ranks above. *)
Theorem pivot_first_occupied_decides (b : list (list Z)) (row e : Z) :
  board4x4 b -> 0 <= row <= 3 ->
  pivot_reached b row -> pivot_fires b row e ->
  match filter occupied (scan_order b row) with
  | x :: _ =>
      check_pivots b = Ok (Some (if x =? e then pivot_move row else Undo))
  | [] =>
      check_pivots b
      = (c <- for_return (range_down (row - 1) (-1))
                (pivot_body b (sort_desc (concat b))) ;;
         match c with
         | Return r => Ok r
         | Continue => Ok None
         end)
  end.
Proof.
  intros Hb Hrow Hreach (Hget & Hgt & Hcond).
  assert (Hl : length (sort_desc (concat b)) = 16%nat)
    by (rewrite sort_desc_length; now apply concat_4x4_length).
  pose proof (pivot_body_fires b _ row e Hb Hl Hrow Hget Hgt Hcond) as Hbody.
  unfold check_pivots, pivot_reached in *.
  set (body := pivot_body b (sort_desc (concat b))) in *.
  assert (Hsplit : range_down (rows - 1) (-1)
                   = range_down (rows - 1) row
                     ++ row :: range_down (row - 1) (-1)).
  { assert (row = 3 \/ row = 2 \/ row = 1 \/ row = 0)
      as [-> | [-> | [-> | ->]]] by lia; reflexivity. }
  rewrite Hsplit, (for_return_app _ _ body Hreach), for_return_cons, Hbody.
  destruct (filter occupied (scan_order b row)) as [|x t]; reflexivity.
Qed.

Lemma pivot_first_occupied_decides_witness :
  board4x4 pivot_slides /\ 0 <= 3 <= 3 /\
  pivot_reached pivot_slides 3 /\ pivot_fires pivot_slides 3 128 /\
  check_pivots pivot_slides = Ok (Some Right).
Proof.
  assert (Hb : board4x4 pivot_slides) by (apply board4x4b_sound; reflexivity).
  assert (Hr : 0 <= 3 <= 3) by lia.
  assert (Hreach : pivot_reached pivot_slides 3) by reflexivity.
  assert (Hf : pivot_fires pivot_slides 3 128).
  { split; [reflexivity|]. split; [lia|]. left. reflexivity. }
  repeat (split; [assumption|]).
  exact (pivot_first_occupied_decides pivot_slides 3 128 Hb Hr Hreach Hf).
Defined.

(** C4, as the spec states it, fails. On the board whose bottom row is
    [128, 1, 1, 2] the check fires on the bottom row with expected value
    128, and 128 is in that row, but [check_pivots] returns undo, not
    right: the scan stops at the first occupied cell, 2. On the board whose
    only tile 128 is in row 2, the check fires on the empty bottom row, 128
    is not in that row, and [check_pivots] returns none, not undo. *)
Lemma pivot_findable_counterexample :
  (board4x4 pivot_blocked /\ pivot_reached pivot_blocked 3 /\
   pivot_fires pivot_blocked 3 128 /\ In 128 (scan_order pivot_blocked 3) /\
   check_pivots pivot_blocked = Ok (Some Undo)) /\
  (board4x4 pivot_elsewhere /\ pivot_reached pivot_elsewhere 3 /\
   pivot_fires pivot_elsewhere 3 128 /\
   ~ In 128 (scan_order pivot_elsewhere 3) /\
   check_pivots pivot_elsewhere = Ok None).
Proof.
  split.
  - split; [apply board4x4b_sound; reflexivity|].
    split; [reflexivity|].
    split; [split; [reflexivity|]; split; [lia|]; left; reflexivity|].
    split; [vm_compute; do 3 right; left; reflexivity|]. reflexivity.
  - split; [apply board4x4b_sound; reflexivity|].
    split; [reflexivity|].
    split; [split; [reflexivity|]; split; [lia|]; left; reflexivity|].
    split; [|reflexivity].
    vm_compute. intros [H | [H | [H | [H | []]]]]; discriminate H.
Qed.

(** C10. On every 4x4 integer board [check_pivots] returns without an
    index error, and its result is none, left, right or undo. The row
    below the bottom row does not exist ([board_copy[4]] would raise), and
    the loop never reads it: on the bottom row the even-rank condition
    stops at [bl_idx == 0], and the odd-rank condition fails on its parity
    test, whatever the sorted list holds. *)
Theorem check_pivots_total (b : list (list Z)) :
  board4x4 b ->
  (exists r, check_pivots b = Ok r /\
             (r = None \/ r = Some Left \/ r = Some Right \/ r = Some Undo)) /\
  getitem b (3 + 1) = Raise IndexError /\
  (forall board_list e,
     exists c, pivot_even_cond b board_list 3 (pivot_index 3) e = Ok c) /\
  (forall board_list e row, row = 3 \/ row = 1 ->
     pivot_odd_cond b board_list row (pivot_index row) e = Ok false).
Proof.
  intros Hb. split; [|split; [|split]].
  - assert (Hl : length (sort_desc (concat b)) = 16%nat)
      by (rewrite sort_desc_length; now apply concat_4x4_length).
    destruct (pivot_loop_total b _ Hb Hl) as (c & Hc & Hcases).
    unfold check_pivots. rewrite Hc. cbn [bind].
    destruct Hcases as [-> | [-> | [-> | [-> | ->]]]]; eexists;
      (split; [reflexivity|]); auto.
  - destruct (board4x4_inv b Hb) as (r0 & r1 & r2 & r3 & -> & _).
    reflexivity.
  - intros board_list e.
    destruct (board4x4_inv b Hb) as (r0 & r1 & r2 & r3 & -> & _ & _ & _ & H3).
    destruct (length4_inv r3 H3) as (d0 & d1 & d2 & d3 & ->).
    unfold pivot_even_cond, pivot_index, rows, cols. simpl.
    destruct (negb (e =? d3)); eexists; reflexivity.
  - intros board_list e row [-> | ->]; reflexivity.
Qed.

Lemma check_pivots_total_witness :
  board4x4 fixture /\
  exists r, check_pivots fixture = Ok r /\
            (r = None \/ r = Some Left \/ r = Some Right \/ r = Some Undo).
Proof.
  assert (Hb : board4x4 fixture) by (apply board4x4b_sound; reflexivity).
  split; [exact Hb|].
  exact (proj1 (check_pivots_total fixture Hb)).
Defined.

(** ** The orchestrator on a board that no move changes *)

Lemma board_eqb_refl (b : list (list Z)) : board_eqb b b = true.
Proof.
  unfold board_eqb.
  destruct (list_eq_dec (list_eq_dec Z.eq_dec) b b); congruence.
Qed.

(** When the three transforms return the board itself, every iteration of
    the [while] loop finds [board == upcoming_board] again. *)
Lemma rotate_stuck (b : list (list Z)) :
  left b = Ok b -> right b = Ok b -> down b = Ok b ->
  forall fuel mv, rotate fuel b mv b = None.
Proof.
  intros Hl Hr Hd. induction fuel as [|fuel IH]; intros mv.
  - cbn [rotate]. now rewrite board_eqb_refl.
  - cbn [rotate]. rewrite board_eqb_refl.
    destruct mv as [[]|]; rewrite ?Hl, ?Hr, ?Hd; apply IH.
Qed.

Lemma next_board_stuck (b : list (list Z)) (mv : move) :
  left b = Ok b -> right b = Ok b -> down b = Ok b ->
  next_move b = Done (Some mv) ->
  mv = Down \/ mv = Left \/ mv = Right ->
  forall fuel, next_board fuel b = None.
Proof.
  intros Hl Hr Hd Hmv Hdir fuel. unfold next_board. rewrite Hmv.
  destruct Hdir as [-> | [-> | ->]]; unfold apply_move;
    rewrite ?Hl, ?Hr, ?Hd; cbn [bind];
    rewrite ?Hl, ?Hr, ?Hd; cbn [bind];
    now rewrite (rotate_stuck b Hl Hr Hd).
Qed.

(** C1. On the all-sentinel board the three transforms are no-ops and the
    search picks down, so [next_board] enters its [while board ==
    upcoming_board] loop with the board unchanged, and the loop has no
    exit: whatever number of iterations is allowed, [next_board] has not
    returned. The same holds on a full board without equal neighbours. *)
Theorem next_board_never_returns_on_stuck_board :
  down all_sentinel = Ok all_sentinel /\
  left all_sentinel = Ok all_sentinel /\
  right all_sentinel = Ok all_sentinel /\
  next_move all_sentinel = Done (Some Down) /\
  (forall fuel, next_board fuel all_sentinel = None) /\
  (forall fuel, next_board fuel checkerboard = None).
Proof.
  assert (Hd : down all_sentinel = Ok all_sentinel) by reflexivity.
  assert (Hl : left all_sentinel = Ok all_sentinel) by reflexivity.
  assert (Hr : right all_sentinel = Ok all_sentinel) by reflexivity.
  assert (Hm : next_move all_sentinel = Done (Some Down))
    by (vm_compute; reflexivity).
  repeat (split; [assumption|]). split.
  - apply (next_board_stuck all_sentinel Down); auto.
  - apply (next_board_stuck checkerboard Down); auto;
      vm_compute; reflexivity.
Qed.

(** ** A bound on the integer score *)

Lemma weight_bound (base v : Z) :
  0 < base -> 1 <= v <= 2 ^ 24 -> 0 <= weight base v <= base ^ 24.
Proof.
  intros Hbase [Hlo Hhi]. unfold weight.
  assert (Hlog : Z.log2 v <= 24).
  { rewrite <- (Z.log2_pow2 24) by lia. now apply Z.log2_le_mono. }
  split.
  - apply Z.pow_nonneg. lia.
  - apply Z.pow_le_mono_r; lia.
Qed.

Lemma zsum_bound (m : Z) (l : list Z) :
  Forall (fun x => 0 <= x <= m) l ->
  0 <= zsum l <= Z.of_nat (length l) * m.
Proof.
  induction 1 as [|x l Hx _ IH]; cbn [zsum length]; [lia|].
  rewrite Nat2Z.inj_succ. lia.
Qed.

Lemma noninc_run_length (prev : Z) (l : list Z) :
  (length (noninc_run prev l) <= length l)%nat.
Proof.
  revert prev. induction l as [|x l IH]; intros prev; cbn; [lia|].
  destruct (x <=? prev); cbn; [|lia]. specialize (IH x). lia.
Qed.

Lemma mono_prefix_length (t : list Z) :
  (length (mono_prefix t) <= length t)%nat.
Proof.
  destruct t as [|x t]; cbn; [lia|]. pose proof (noninc_run_length x t). lia.
Qed.

Lemma snake_4x4_length (b : list (list Z)) :
  board4x4 b -> length (snake b) = 16%nat.
Proof.
  intros Hb.
  destruct (board4x4_inv b Hb) as (r0 & r1 & r2 & r3 & -> & H0 & H1 & H2 & H3).
  cbn [snake]. rewrite !length_app, !length_rev, H0, H1, H2, H3. reflexivity.
Qed.

(** On a 4x4 board with tiles up to 2^24 the score is below 2^53; all the
    terms are non-negative, so every partial sum is too. *)
Lemma score_value_below_2_53 (b : list (list Z)) :
  board4x4 b -> Forall (Forall (fun x => 1 <= x <= 2 ^ 24)) b ->
  0 <= score_value b < 2 ^ 53.
Proof.
  intros Hb Hcells. unfold score_value.
  assert (H4 : Forall (fun x => 0 <= x <= 4 ^ 24)
                 (map (weight 4) (mono_prefix (snake b)))).
  { apply Forall_map.
    eapply Forall_impl;
      [|apply mono_prefix_Forall, snake_Forall, Hcells].
    intros v Hv. apply weight_bound; [lia | exact Hv]. }
  assert (H3 : Forall (fun x => 0 <= x <= 3 ^ 24)
                 (map (weight 3) (concat b))).
  { apply Forall_map.
    eapply Forall_impl; [|apply concat_Forall, Hcells].
    intros v Hv. apply weight_bound; [lia | exact Hv]. }
  apply zsum_bound in H4, H3.
  rewrite length_map in H4, H3.
  pose proof (mono_prefix_length (snake b)) as Hp.
  rewrite (snake_4x4_length b Hb) in Hp.
  rewrite (concat_4x4_length b Hb) in H3.
  change (4 ^ 24) with 281474976710656 in H4.
  change (3 ^ 24) with 282429536481 in H3.
  change (2 ^ 53) with 9007199254740992.
  nia.
Qed.

(** ** How far the transforms raise the tiles *)











Lemma cells_ok_within (M : Z) (b : list (list Z)) :
  cells_ok b -> Forall (Forall (fun x => x <= M)) b -> cells_within M b.
Proof.
  unfold cells_ok, cells_within. intros Hc.
  induction Hc as [|row b Hrow _ IH]; intros H; [constructor|].
  inversion H as [|? ? Hr Hb]; subst. constructor; [|auto].
  clear IH H Hb. induction Hrow as [|x row Hx _ IH]; [constructor|].
  inversion Hr; subst. constructor; [|auto].
  split; [|assumption].
  destruct Hx as [-> | (k & Hk & ->)]; [lia|].
  assert (2 ^ 0 <= 2 ^ k) by (apply Z.pow_le_mono_r; lia).
  change (2 ^ 0) with 1 in *. lia.
Qed.

(** ** The range in which the float scores are the integer scores *)

(** An integer below 2^53 is a binary64 value. *)
Lemma round64_small (z : Z) : 0 <= z < 2 ^ 53 -> round64 z = z.
Proof.
  intros [Hlo Hhi]. unfold round64.
  destruct (Z.leb_spec (Z.log2 z - 52) 0) as [_ | He]; [reflexivity|].
  exfalso.
  assert (Hz : 0 < z).
  { destruct (Z.eq_dec z 0) as [-> | Hne]; [|lia].
    change (Z.log2 0) with 0 in He. lia. }
  apply (Z.log2_lt_pow2 z 53 Hz) in Hhi. lia.
Qed.

(** Above 2^53 the floats are even integers, above 2^54 multiples of 4:
    an integer halfway between two floats goes to the one with the even
    significand, and the greatest float plus half a step goes to
    [float_overflow]. *)
Example round64_rounds :
  round64 (2 ^ 53 + 1) = 2 ^ 53 /\
  round64 (2 ^ 53 + 3) = 2 ^ 53 + 4 /\
  round64 (2 ^ 54 + 5) = 2 ^ 54 + 4 /\
  round64 (2 ^ 54 + 7) = 2 ^ 54 + 8 /\
  round64 (2 ^ 1024 - 2 ^ 971) = 2 ^ 1024 - 2 ^ 971 /\
  round64 (2 ^ 1024 - 2 ^ 970) = float_overflow.
Proof. repeat split; vm_compute; reflexivity. Qed.

Lemma below_float_overflow (z : Z) : z < 2 ^ 53 -> z < float_overflow.
Proof.
  intros H. apply (Z.lt_trans _ (2 ^ 53)); [exact H | reflexivity].
Qed.

Lemma fadd_small (x y : Z) :
  0 <= x + y < 2 ^ 53 -> fadd (Exact x) (Exact y) = Exact (x + y).
Proof.
  intros H. unfold fadd. rewrite (round64_small _ H). cbv zeta.
  destruct (Z.ltb_spec (x + y) float_overflow) as [_ | Hge]; [reflexivity|].
  pose proof (below_float_overflow (x + y) (proj2 H)). lia.
Qed.

Lemma weight_nonneg (base v : Z) : 0 <= base -> 0 <= weight base v.
Proof. intros H. unfold weight. now apply Z.pow_nonneg. Qed.

Lemma zsum_weights_nonneg (base : Z) (l : list Z) :
  0 <= base -> 0 <= zsum (map (weight base) l).
Proof.
  intros H. induction l as [|x l IH]; cbn [map zsum]; [lia|].
  pose proof (weight_nonneg base x H). lia.
Qed.

Lemma zsum_app (l l' : list Z) : zsum (l ++ l') = zsum l + zsum l'.
Proof. induction l as [|x l IH]; cbn [app zsum]; [reflexivity|]. lia. Qed.

(** On a cell that holds 1 or a power of two up to 2^24, and for a base
    from 1 to 4, the power is below 2^48 and [pow] returns it exactly. *)
Lemma pow_log2_exact (base x : Z) :
  1 <= base <= 4 -> cell_ok x -> x <= 2 ^ 24 ->
  pow_log2 base x = Done (Exact (weight base x)) /\
  0 <= weight base x < 2 ^ 53.
Proof.
  intros Hbase Hx Hle.
  assert (Hk : exists k, 0 <= k <= 24 /\ x = 2 ^ k).
  { destruct Hx as [-> | (k & Hk & ->)]; [exists 0; split; [lia | reflexivity]|].
    exists k. split; [|reflexivity]. split; [lia|].
    apply (Z.pow_le_mono_r_iff 2); lia. }
  destruct Hk as (k & Hk & ->).
  assert (Hpos : 0 < 2 ^ k) by (apply Z.pow_pos_nonneg; lia).
  assert (Hw : 0 <= base ^ k < 2 ^ 53).
  { split; [apply Z.pow_nonneg; lia|].
    apply (Z.le_lt_trans _ (4 ^ 24)); [|reflexivity].
    apply Z.pow_le_mono; lia. }
  unfold pow_log2, weight. rewrite Z.log2_pow2 by lia.
  split; [|exact Hw].
  destruct (Z.leb_spec (2 ^ k) 0); [lia|]. rewrite Z.eqb_refl. cbv zeta.
  destruct (Z.leb_spec float_overflow (base ^ k)) as [Hov|_].
  - pose proof (below_float_overflow _ (proj2 Hw)). lia.
  - rewrite (round64_small _ Hw), Z.eqb_refl. reflexivity.
Qed.

(** *** Facts about the two sums of [score] *)

Lemma sum_loop_exact (base : Z) (l : list Z) (a : Z) :
  1 <= base <= 4 ->
  Forall (fun x => cell_ok x /\ x <= 2 ^ 24) l ->
  0 <= a -> a + zsum (map (weight base) l) < 2 ^ 53 ->
  ofor_each l (fun i score => p <~ pow_log2 base i ;; Done (fadd score p))
    (Exact a)
  = Done (Exact (a + zsum (map (weight base) l))).
Proof.
  intros Hbase H. revert a.
  induction H as [|x l [Hx Hle] _ IH]; intros a Ha Hsum;
    cbn [ofor_each map zsum].
  - now rewrite Z.add_0_r.
  - destruct (pow_log2_exact base x Hbase Hx Hle) as [-> Hw]. cbn [obind].
    assert (Hrest : 0 <= zsum (map (weight base) l))
      by (apply zsum_weights_nonneg; lia).
    cbn [map zsum] in Hsum.
    rewrite fadd_small by lia. rewrite IH by lia.
    now rewrite Z.add_assoc.
Qed.

Lemma board_loop_exact (base : Z) (b : list (list Z)) (a : Z) :
  1 <= base <= 4 ->
  Forall (Forall (fun x => cell_ok x /\ x <= 2 ^ 24)) b ->
  0 <= a -> a + zsum (map (weight base) (concat b)) < 2 ^ 53 ->
  ofor_each b
    (fun row => ofor_each row
       (fun cell score => p <~ pow_log2 base cell ;; Done (fadd score p)))
    (Exact a)
  = Done (Exact (a + zsum (map (weight base) (concat b)))).
Proof.
  intros Hbase H. revert a.
  induction H as [|row b Hrow _ IH]; intros a Ha Hsum;
    cbn [ofor_each concat].
  - cbn. now rewrite Z.add_0_r.
  - cbn [concat] in Hsum. rewrite map_app, zsum_app in Hsum |- *.
    assert (0 <= zsum (map (weight base) row))
      by (apply zsum_weights_nonneg; lia).
    assert (0 <= zsum (map (weight base) (concat b)))
      by (apply zsum_weights_nonneg; lia).
    rewrite (sum_loop_exact base row a Hbase Hrow) by lia. cbn [obind].
    rewrite IH by lia. now rewrite Z.add_assoc.
Qed.

Lemma cells_ok_upto (M : Z) (b : list (list Z)) :
  cells_ok b -> Forall (Forall (fun x => x <= M)) b ->
  Forall (Forall (fun x => cell_ok x /\ x <= M)) b.
Proof.
  unfold cells_ok. intros Hc.
  induction Hc as [|row b Hrow _ IH]; intros H; [constructor|].
  inversion H as [|? ? Hr Hb]; subst. constructor; [|auto].
  clear IH H Hb. induction Hrow as [|x row Hx _ IH]; [constructor|].
  inversion Hr; subst. constructor; auto.
Qed.

Lemma rows_of_fresh (b : list (list Z)) : rows_of (fresh b) = b.
Proof.
  unfold rows_of, fresh. cbn [objects refs].
  apply (nth_ext _ _ [] []).
  - now rewrite length_map, length_seq.
  - intros n Hn. rewrite length_map, length_seq in Hn.
    rewrite (nth_indep _ [] (nth 0 b [])) by (now rewrite length_map, length_seq).
    change (nth 0 b []) with ((fun r => nth r b []) 0%nat).
    rewrite map_nth, seq_nth by exact Hn. reflexivity.
Qed.

(** On a 4x4 board of sentinel and power-of-two cells up to 2^24, with
    rows that are distinct objects, every float of [score] is exact. *)
Lemma score_good (b : list (list Z)) :
  good b -> Forall (Forall (fun x => x <= 2 ^ 24)) b ->
  score (fresh b) = Done (Exact (score_value b)).
Proof.
  intros [Hb Hc] Hle.
  pose proof (score_value_below_2_53 b Hb (cells_ok_within _ b Hc Hle))
    as Hbound.
  unfold score_value in Hbound |- *.
  pose proof (zsum_weights_nonneg 4 (mono_prefix (snake b))) as H4.
  pose proof (zsum_weights_nonneg 3 (concat b)) as H3.
  unfold score. rewrite (find_longest_path_4x4 b Hb), rows_of_fresh.
  cbn [follow obind].
  rewrite (sum_loop_exact 4 _ 0); [|lia| |lia|lia].
  - cbn [obind].
    rewrite (board_loop_exact 3 b); [reflexivity|lia| |lia|lia].
    now apply cells_ok_upto.
  - apply mono_prefix_Forall, snake_Forall. now apply cells_ok_upto.
Qed.

(** ** The scorer: value and failure *)

(** C8, as the code has it. On every 4x4 board of sentinel and
    power-of-two cells up to 2^24 whose rows are distinct list objects,
    [find_longest_path] returns the longest non-increasing initial run of
    the snake traversal from the build corner, and [score] is the sum of
    [4 ^ log2 v] over that prefix plus the sum of [3 ^ log2 v] over all 16
    cells: up to 2^24 every term and every partial sum is below 2^53, so
    the float additions are exact. On the fixture board the prefix is
    [16384, 512, 128, 32, 8] and the score is 273521286 (268715072 for the
    prefix, 4806214 for the cells). *)
Theorem score_is_prefix_sum_plus_cell_sum :
  (forall b, board4x4 b -> cells_ok b ->
     Forall (Forall (fun x => x <= 2 ^ 24)) b ->
     exists p,
       find_longest_path (fresh b) = Ok p /\
       longest_nonincreasing_prefix p (snake b) /\
       score (fresh b)
       = Done (Exact (zsum (map (weight 4) p)
                      + zsum (map (weight 3) (concat b))))) /\
  find_longest_path (fresh fixture) = Ok [16384; 512; 128; 32; 8] /\
  score (fresh fixture)
  = Done (Exact (zsum (map (weight 4) [16384; 512; 128; 32; 8])
                 + zsum (map (weight 3) (concat fixture)))) /\
  score (fresh fixture) = Done (Exact 273521286).
Proof.
  split; [|repeat split; vm_compute; reflexivity].
  intros b Hb Hc Hle. exists (mono_prefix (snake b)).
  split; [now apply find_longest_path_4x4|]. split.
  - apply mono_prefix_longest.
    destruct (board4x4_inv b Hb) as (r0 & r1 & r2 & r3 & -> & _ & _ & _ & H3).
    destruct (length4_inv r3 H3) as (d0 & d1 & d2 & d3 & ->).
    cbn. destruct (rev r1 ++ r0); discriminate.
  - apply score_good; [split|]; assumption.
Qed.

Lemma score_is_prefix_sum_plus_cell_sum_witness :
  board4x4 fixture /\ cells_ok fixture /\
  Forall (Forall (fun x => x <= 2 ^ 24)) fixture /\
  exists p,
    find_longest_path (fresh fixture) = Ok p /\
    longest_nonincreasing_prefix p (snake fixture) /\
    score (fresh fixture)
    = Done (Exact (zsum (map (weight 4) p)
                   + zsum (map (weight 3) (concat fixture)))).
Proof.
  assert (Hb : board4x4 fixture) by (apply board4x4b_sound; reflexivity).
  assert (Hc : cells_ok fixture) by (apply cells_okb_sound; reflexivity).
  assert (Hle : Forall (Forall (fun x => x <= 2 ^ 24)) fixture)
    by (repeat constructor; discriminate).
  split; [exact Hb|]. split; [exact Hc|]. split; [exact Hle|].
  exact (proj1 score_is_prefix_sum_plus_cell_sum fixture Hb Hc Hle).
Defined.

(** C8, as the spec states it, fails in two ways. With a tile 2^27 in the
    build corner the prefix term [4 ^ 27 = 2 ^ 54] is beyond 2^53 and the
    float sum is rounded: [score] returns 18022024106966980, the two sums
    are 18022024106967006; with sixteen tiles 2^25 the sums are
    18027955127233072 and [score] returns 18027955127233088. And on a
    board whose rows 0 and 2 are one list object the two [reverse] calls
    undo each other, so the sequence [find_longest_path] returns is not
    the prefix of the snake traversal. *)
Lemma score_formula_counterexample :
  board4x4 rounding_board /\ cells_ok rounding_board /\
  score (fresh rounding_board) = Done (Exact 18022024106966980) /\
  zsum (map (weight 4) (mono_prefix (snake rounding_board)))
  + zsum (map (weight 3) (concat rounding_board)) = 18022024106967006 /\
  score (fresh tiles_2_25) = Done (Exact 18027955127233088) /\
  zsum (map (weight 4) (mono_prefix (snake tiles_2_25)))
  + zsum (map (weight 3) (concat tiles_2_25)) = 18027955127233072 /\
  board4x4 (rows_of shared_rows) /\ cells_ok (rows_of shared_rows) /\
  find_longest_path shared_rows = Ok [64; 32; 16; 8; 1] /\
  mono_prefix (snake (rows_of shared_rows))
  = [64; 32; 16; 8; 8; 4; 2; 1; 1; 1; 1; 1].
Proof.
  split; [apply board4x4b_sound; reflexivity|].
  split; [apply cells_okb_sound; reflexivity|].
  split; [vm_compute; reflexivity|].
  split; [vm_compute; reflexivity|].
  split; [vm_compute; reflexivity|].
  split; [vm_compute; reflexivity|].
  split; [apply board4x4b_sound; reflexivity|].
  split; [apply cells_okb_sound; reflexivity|].
  split; vm_compute; reflexivity.
Qed.









(** ** The lookahead search *)










Lemma sort_head_first_max {L : Type} (l : list (Z * L)) :
  hd_error (sort_by_score_desc l) = first_max l.
Proof.
  induction l as [|x l IH]; [reflexivity|].
  change (sort_by_score_desc (x :: l))
    with (insert_stable x (sort_by_score_desc l)).
  cbn [first_max]. rewrite <- IH.
  destruct (sort_by_score_desc l) as [|y s]; cbn; [reflexivity|].
  destruct (fst x <? fst y); reflexivity.
Qed.

Lemma first_max_is_first_best {L : Type} (l : list (Z * L)) (x : Z * L) :
  first_max l = Some x ->
  exists i,
    nth_error l i = Some x /\
    (forall j y, nth_error l j = Some y -> fst y <= fst x) /\
    (forall j y, (j < i)%nat -> nth_error l j = Some y -> fst y < fst x).
Proof.
  revert x. induction l as [|x0 l IH]; intros x Hx; [discriminate Hx|].
  cbn [first_max] in Hx. destruct (first_max l) as [y|] eqn:Hl.
  - destruct (IH y eq_refl) as (i & Hi & Hmax & Hfirst).
    destruct (Z.ltb_spec (fst x0) (fst y)) as [Hlt | Hge];
      injection Hx as <-.
    + exists (S i). split; [exact Hi|]. split.
      * intros [|j] z Hz; cbn in Hz; [injection Hz as <-; lia | eauto].
      * intros [|j] z Hj Hz; cbn in Hz; [injection Hz as <-; lia|].
        apply (Hfirst j); [lia | exact Hz].
    + exists 0%nat. split; [reflexivity|]. split.
      * intros [|j] z Hz; cbn in Hz; [injection Hz as <-; lia|].
        specialize (Hmax j z Hz). lia.
      * intros j z Hj. lia.
  - injection Hx as <-. destruct l as [|y l]; [|cbn in Hl].
    + exists 0%nat. split; [reflexivity|]. split.
      * intros [|[|j]] z Hz; cbn in Hz; try discriminate Hz.
        injection Hz as <-. lia.
      * intros j z Hj. lia.
    + destruct (first_max l) as [z|]; [destruct (fst y <? fst z)|];
        discriminate Hl.
Qed.







(** On the empty board all 27 leaves score 32, and the label is down. *)
Example next_move_tie_goes_down :
  map (fun leaf => score_value (fst leaf)) (depth3_leaves all_sentinel)
  = repeat 32 27 /\
  next_move all_sentinel = Done (Some Down).
Proof. split; vm_compute; reflexivity. Qed.

(** * Part 4: further properties of the program *)

(** ** [get_max_cell] *)

Lemma fold_max_row (row : list Z) (m : Z) :
  m <= fold_left Z.max row m /\
  Forall (fun x => x <= fold_left Z.max row m) row /\
  (fold_left Z.max row m = m \/ In (fold_left Z.max row m) row).
Proof.
  revert m. induction row as [|x row IH]; intros m; cbn [fold_left].
  - split; [lia|]. split; [constructor | now left].
  - destruct (IH (Z.max m x)) as (Hge & Hall & Hin).
    split; [lia|]. split; [constructor; [lia | exact Hall]|].
    destruct Hin as [Heq | Hin]; [|right; now right].
    rewrite Heq. destruct (Z.max_spec m x) as [[_ ->] | [_ ->]];
      [right; now left | now left].
Qed.

Lemma fold_max_board (b : list (list Z)) (m : Z) :
  let r := fold_left (fun max_cell row => fold_left Z.max row max_cell) b m in
  m <= r /\
  Forall (Forall (fun x => x <= r)) b /\
  (r = m \/ exists row, In row b /\ In r row).
Proof.
  revert m. induction b as [|row b IH]; intros m; cbn [fold_left].
  - split; [lia|]. split; [constructor | now left].
  - destruct (fold_max_row row m) as (Hge & Hall & Hin).
    destruct (IH (fold_left Z.max row m)) as (Hge' & Hall' & Hin').
    cbv zeta in *. split; [lia|]. split.
    + constructor; [|exact Hall'].
      eapply Forall_impl; [|exact Hall]. cbv beta. intros x Hx. lia.
    + destruct Hin' as [Heq | (row' & Hrow' & Hr)].
      * rewrite Heq. destruct Hin as [-> | Hin]; [now left|].
        right. exists row. split; [now left | exact Hin].
      * right. exists row'. split; [now right | exact Hr].
Qed.

(** X1. [get_max_cell] returns the largest of 1 and all the cells: the
    result is at least 1 and at least every cell, and it is 1 or a cell of
    the board. On a board without cells it is 1. *)
Theorem get_max_cell_is_maximum (b : list (list Z)) :
  1 <= get_max_cell b /\
  Forall (Forall (fun x => x <= get_max_cell b)) b /\
  (get_max_cell b = 1 \/ exists row, In row b /\ In (get_max_cell b) row).
Proof. exact (fold_max_board b 1). Qed.

(** ** One transform against another *)

Lemma right_line_mirror (row : list Z) :
  right_line row = rev (left_line (rev row)).
Proof.
  unfold right_line, left_line.
  rewrite filter_rev, rev_app_distr, rev_repeat, !length_rev. reflexivity.
Qed.

Lemma board4x4_map_rev (b : list (list Z)) :
  board4x4 b -> board4x4 (map (@rev Z) b).
Proof. apply map_line_4x4. intros row. apply length_rev. Qed.

(** X2. [right] is the mirror image of [left]: on a 4x4 board, reversing
    every row, moving left and reversing every row again gives the board
    that [right] returns. *)
Theorem right_is_mirrored_left (b : list (list Z)) :
  board4x4 b ->
  exists b', left (map (@rev Z) b) = Ok b' /\ right b = Ok (map (@rev Z) b').
Proof.
  intros Hb. exists (map left_line (map (@rev Z) b)).
  split; [apply left_4x4, board4x4_map_rev, Hb|].
  rewrite (right_4x4 b Hb), !map_map.
  apply f_equal, map_ext. intros row. apply right_line_mirror.
Qed.

Lemma right_is_mirrored_left_witness :
  board4x4 fixture /\
  exists b', left (map (@rev Z) fixture) = Ok b' /\
             right fixture = Ok (map (@rev Z) b').
Proof.
  assert (Hb : board4x4 fixture) by (apply board4x4b_sound; reflexivity).
  split; [exact Hb|]. exact (right_is_mirrored_left fixture Hb).
Defined.

(** ** The shape of a transformed board *)

Lemma left_compact_left_line (row : list Z) :
  left_compact (left_line row) = left_line row.
Proof.
  unfold left_compact. rewrite left_line_tiles, left_line_length.
  reflexivity.
Qed.

Lemma right_compact_right_line (row : list Z) :
  right_compact (right_line row) = right_line row.
Proof.
  unfold right_compact. rewrite right_line_tiles, right_line_length.
  unfold right_line. reflexivity.
Qed.

Lemma map_line_Forall (f : list Z -> list Z) (P : list Z -> Prop)
    (b : list (list Z)) :
  (forall row, P (f row)) -> Forall P (map f b).
Proof. intros H. induction b; cbn; constructor; auto. Qed.

(** X3. A transform leaves no gap: in the board [left] returns every row
    has its tiles packed at the left edge (the compaction step of [left]
    would not change it), in the board [right] returns every row has them
    packed at the right edge, and in the board [down] returns every column
    has them packed at the bottom. *)
Theorem transforms_leave_no_gap (b : list (list Z)) :
  board4x4 b ->
  (exists b', left b = Ok b' /\ Forall (fun r => left_compact r = r) b') /\
  (exists b', right b = Ok b' /\ Forall (fun r => right_compact r = r) b') /\
  (exists b', down b = Ok b' /\
              Forall (fun c => right_compact c = c) (transpose4 b')).
Proof.
  intros Hb. split; [|split].
  - exists (map left_line b). split; [now apply left_4x4|].
    apply map_line_Forall, left_compact_left_line.
  - exists (map right_line b). split; [now apply right_4x4|].
    apply map_line_Forall, right_compact_right_line.
  - exists (transpose4 (map right_line (transpose4 b))).
    split; [now apply down_4x4|].
    rewrite transpose4_involutive
      by (apply map_line_4x4, transpose4_4x4, Hb; apply right_line_length).
    apply map_line_Forall, right_compact_right_line.
Qed.

Lemma transforms_leave_no_gap_witness :
  board4x4 fixture /\
  (exists b', left fixture = Ok b' /\
              Forall (fun r => left_compact r = r) b') /\
  (exists b', right fixture = Ok b' /\
              Forall (fun r => right_compact r = r) b') /\
  (exists b', down fixture = Ok b' /\
              Forall (fun c => right_compact c = c) (transpose4 b')).
Proof.
  assert (Hb : board4x4 fixture) by (apply board4x4b_sound; reflexivity).
  split; [exact Hb|]. exact (transforms_leave_no_gap fixture Hb).
Defined.

(** ** When a transform is a no-op *)

Lemma merge_pairs_fixed (l : list Z) :
  merge_pairs l = l <-> no_equal_neighbours l.
Proof.
  apply (merge_pairs_cases
           (fun l m => m = l <-> no_equal_neighbours l)).
  - cbn. tauto.
  - intros x. cbn. tauto.
  - intros x t _. split.
    + intros H. apply (f_equal (@length Z)) in H. cbn in H.
      pose proof (merge_pairs_length t). lia.
    + cbn. intros [H _]. congruence.
  - intros x y t Hxy IH. cbn [no_equal_neighbours]. split.
    + intros H. injection H as H. split; [exact Hxy | now apply IH].
    + intros [_ H]. f_equal. now apply IH.
Qed.

Lemma left_line_fixed (row : list Z) :
  left_line row = row <-> settled_left row.
Proof.
  unfold settled_left. split.
  - intros H.
    assert (Hocc : merge_pairs (filter occupied row) = filter occupied row).
    { rewrite <- left_line_tiles. now rewrite H. }
    split; [|now apply merge_pairs_fixed].
    rewrite <- H at 2. unfold left_compact, left_line. now rewrite Hocc.
  - intros [Hc Hn]. apply merge_pairs_fixed in Hn.
    rewrite <- Hc at 2. unfold left_compact, left_line. now rewrite Hn.
Qed.

Lemma right_line_fixed (row : list Z) :
  right_line row = row <-> settled_left (rev row).
Proof.
  rewrite right_line_mirror, <- left_line_fixed. split.
  - intros H. rewrite <- H at 2. now rewrite rev_involutive.
  - intros H. rewrite H. apply rev_involutive.
Qed.

Lemma map_fixed {A : Type} (f : A -> A) (l : list A) :
  map f l = l <-> Forall (fun x => f x = x) l.
Proof.
  induction l as [|x l IH]; cbn.
  - split; [constructor | reflexivity].
  - split.
    + intros H. injection H as Hx Hl. constructor; [exact Hx | now apply IH].
    + intros H. inversion H; subst. f_equal; [assumption | now apply IH].
Qed.

Lemma Forall_iff {A : Type} (P Q : A -> Prop) (l : list A) :
  (forall x, P x <-> Q x) -> Forall P l <-> Forall Q l.
Proof.
  intros H. split; apply Forall_impl; intros x; apply H.
Qed.

(** X4. The no-op test of the orchestrator. On a 4x4 board [left] returns
    the board itself exactly when every row is settled (tiles packed at
    the left edge, no two neighbouring tiles equal), [right] exactly when
    every reversed row is settled, and [down] exactly when every reversed
    column is settled. *)
Theorem transform_noop_iff_settled (b : list (list Z)) :
  board4x4 b ->
  (left b = Ok b <-> Forall settled_left b) /\
  (right b = Ok b <-> Forall (fun r => settled_left (rev r)) b) /\
  (down b = Ok b <-> Forall (fun c => settled_left (rev c)) (transpose4 b)).
Proof.
  intros Hb. split; [|split].
  - rewrite (left_4x4 b Hb), <- (Forall_iff _ _ b left_line_fixed),
      <- map_fixed.
    split; [intros H; now injection H | intros ->; reflexivity].
  - rewrite (right_4x4 b Hb), <- (Forall_iff _ _ b right_line_fixed),
      <- map_fixed.
    split; [intros H; now injection H | intros ->; reflexivity].
  - rewrite (down_4x4 b Hb),
      <- (Forall_iff _ _ (transpose4 b) right_line_fixed), <- map_fixed.
    split.
    + intros H.
      assert (H' : transpose4 (map right_line (transpose4 b)) = b)
        by congruence.
      apply (f_equal transpose4) in H'.
      rewrite transpose4_involutive in H'; [exact H'|].
      apply map_line_4x4, transpose4_4x4, Hb. apply right_line_length.
    + intros ->. now rewrite transpose4_involutive.
Qed.

Lemma transform_noop_iff_settled_witness :
  board4x4 checkerboard /\
  (left checkerboard = Ok checkerboard <-> Forall settled_left checkerboard) /\
  left checkerboard = Ok checkerboard.
Proof.
  assert (Hb : board4x4 checkerboard) by (apply board4x4b_sound; reflexivity).
  split; [exact Hb|].
  split; [exact (proj1 (transform_noop_iff_settled checkerboard Hb))|].
  reflexivity.
Defined.

(** ** What the merges keep *)

Lemma zsum_Permutation (l l' : list Z) :
  Permutation l l' -> zsum l = zsum l'.
Proof. induction 1; cbn; lia. Qed.

Lemma merged_sum_and_count (t t' : list Z) :
  merged t t' -> zsum t' = zsum t /\ (length t' <= length t)%nat.
Proof.
  induction 1 as [t t' H | v rest t t' H1 _ IH].
  - split; [symmetry; now apply zsum_Permutation|].
    apply Permutation_length in H. lia.
  - destruct IH as [IHs IHl]. apply zsum_Permutation in H1 as Hs.
    apply Permutation_length in H1. cbn in *. lia.
Qed.

(** X5. A transform keeps the total of the tiles and never adds a tile:
    on a 4x4 board, the occupied cells of the board that [left], [right] or
    [down] returns have the same sum as those of the input and are at most
    as many. *)
Theorem transforms_keep_total (b : list (list Z)) :
  board4x4 b ->
  forall m, direction m ->
    exists b', run m b = Ok b' /\
               zsum (tiles b') = zsum (tiles b) /\
               (length (tiles b') <= length (tiles b))%nat.
Proof.
  intros Hb m [-> | [-> | ->]]; cbn [run].
  - exists (transpose4 (map right_line (transpose4 b))).
    split; [now apply down_4x4|].
    now apply merged_sum_and_count, down_merged.
  - exists (map left_line b). split; [now apply left_4x4|].
    apply merged_sum_and_count, map_line_merged, left_line_merged.
  - exists (map right_line b). split; [now apply right_4x4|].
    apply merged_sum_and_count, map_line_merged, right_line_merged.
Qed.

Lemma transforms_keep_total_witness :
  board4x4 fixture /\ direction Left /\
  exists b', run Left fixture = Ok b' /\
             zsum (tiles b') = zsum (tiles fixture) /\
             (length (tiles b') <= length (tiles fixture))%nat.
Proof.
  assert (Hb : board4x4 fixture) by (apply board4x4b_sound; reflexivity).
  assert (Hd : direction Left) by (right; left; reflexivity).
  split; [exact Hb|]. split; [exact Hd|].
  exact (transforms_keep_total fixture Hb Left Hd).
Defined.

(** ** The ranking of [check_pivots] *)

Lemma insert_desc_Permutation (x : Z) (l : list Z) :
  Permutation (x :: l) (insert_desc x l).
Proof.
  induction l as [|y l IH]; cbn; [apply Permutation_refl|].
  destruct (y <? x); [apply Permutation_refl|].
  transitivity (y :: x :: l); [apply perm_swap | now constructor].
Qed.

Lemma nonincreasing_cons (x : Z) (l : list Z) :
  nonincreasing (x :: l) <->
  nonincreasing l /\ match l with [] => True | y :: _ => y <= x end.
Proof. destruct l; cbn; tauto. Qed.

Lemma insert_desc_nonincreasing (x : Z) (l : list Z) :
  nonincreasing l -> nonincreasing (insert_desc x l).
Proof.
  induction l as [|y l IH]; intros H; [exact I|].
  cbn [insert_desc]. destruct (Z.ltb_spec y x) as [Hlt | Hge].
  - apply nonincreasing_cons. split; [exact H | lia].
  - apply nonincreasing_cons in H. destruct H as [Hl Hy].
    apply nonincreasing_cons. split; [now apply IH|].
    destruct l as [|z l]; cbn [insert_desc]; [exact Hge|].
    destruct (z <? x); assumption.
Qed.

Lemma sort_desc_Permutation (l : list Z) : Permutation l (sort_desc l).
Proof.
  induction l as [|x l IH]; [constructor|].
  change (sort_desc (x :: l)) with (insert_desc x (sort_desc l)).
  transitivity (x :: sort_desc l);
    [now constructor | apply insert_desc_Permutation].
Qed.

Lemma sort_desc_nonincreasing (l : list Z) : nonincreasing (sort_desc l).
Proof.
  induction l as [|x l IH]; [exact I|].
  change (sort_desc (x :: l)) with (insert_desc x (sort_desc l)).
  now apply insert_desc_nonincreasing.
Qed.

Lemma nonincreasing_head_bounds (x : Z) (s : list Z) :
  nonincreasing (x :: s) -> Forall (fun y => y <= x) (x :: s).
Proof.
  revert x. induction s as [|y s IH]; intros x Hs.
  - constructor; [lia | constructor].
  - apply nonincreasing_cons in Hs. destruct Hs as [Hs Hy].
    specialize (IH y Hs). inversion IH as [|? ? _ Htail]; subst.
    constructor; [lia|]. constructor; [exact Hy|].
    eapply Forall_impl; [|exact Htail]. cbv beta. intros z Hz. lia.
Qed.

Lemma sort_desc_Forall (P : Z -> Prop) (l : list Z) :
  Forall P l -> Forall P (sort_desc l).
Proof.
  intros H. rewrite Forall_forall in *. intros x Hx. apply H.
  eapply Permutation_in; [|exact Hx].
  symmetry. apply sort_desc_Permutation.
Qed.

(** X6. The list [check_pivots] ranks is the cells of the board in
    non-increasing order: a permutation of the cells in which no element
    exceeds its predecessor. Its first element, the value expected in the
    bottom-right corner, is therefore a largest cell. *)
Theorem pivot_ranking_is_sorted (l : list Z) :
  Permutation l (sort_desc l) /\
  nonincreasing (sort_desc l) /\
  (forall x, getitem (sort_desc l) 0 = Ok x -> Forall (fun y => y <= x) l).
Proof.
  split; [apply sort_desc_Permutation|].
  split; [apply sort_desc_nonincreasing|].
  intros x Hx.
  pose proof (sort_desc_nonincreasing l) as Hsorted.
  pose proof (sort_desc_Permutation l) as Hperm.
  destruct (sort_desc l) as [|x0 s]; [discriminate Hx|].
  cbn in Hx. injection Hx as ->.
  pose proof (nonincreasing_head_bounds x s Hsorted) as Hall.
  rewrite Forall_forall in *. intros y Hy. apply Hall.
  eapply Permutation_in; [exact Hperm | exact Hy].
Qed.

Lemma pivot_ranking_is_sorted_witness :
  getitem (sort_desc [2; 8; 4]) 0 = Ok 8 /\
  Forall (fun y => y <= 8) [2; 8; 4].
Proof.
  assert (H : getitem (sort_desc [2; 8; 4]) 0 = Ok 8) by reflexivity.
  split; [exact H|].
  exact (proj2 (proj2 (pivot_ranking_is_sorted [2; 8; 4])) 8 H).
Defined.

(** X7. The threshold of the pivot check. On a board with at least one
    cell and no cell above 64, [check_pivots] returns none at the first
    rank without reading the board again; on a board without cells it
    raises IndexError at [board_list[0]]. *)
Theorem check_pivots_below_threshold (b : list (list Z)) :
  (concat b <> [] -> Forall (Forall (fun x => x <= 64)) b ->
   check_pivots b = Ok None) /\
  (concat b = [] -> check_pivots b = Raise IndexError).
Proof.
  split.
  - intros Hne Hall.
    pose proof (sort_desc_Forall _ _ (concat_Forall _ b Hall)) as Hs.
    pose proof (sort_desc_Permutation (concat b)) as Hp.
    unfold check_pivots.
    destruct (sort_desc (concat b)) as [|x s].
    + apply Permutation_sym, Permutation_nil in Hp. contradiction.
    + inversion Hs as [|? ? Hx _]; subst. apply Z.leb_le in Hx.
      change (range_down (rows - 1) (-1)) with [3; 2; 1; 0].
      cbn [for_return]. unfold pivot_body at 1.
      change (getitem (x :: s) ((rows - 3 - 1) * cols)) with (Ok x).
      cbn [bind]. rewrite Hx. reflexivity.
  - intros H. unfold check_pivots. rewrite H. reflexivity.
Qed.

Lemma check_pivots_below_threshold_witness :
  concat [[2; 4]; [64; 1; 8]] <> [] /\
  Forall (Forall (fun x => x <= 64)) [[2; 4]; [64; 1; 8]] /\
  check_pivots [[2; 4]; [64; 1; 8]] = Ok None.
Proof.
  assert (Hne : concat [[2; 4]; [64; 1; 8]] <> []) by discriminate.
  assert (Hall : Forall (Forall (fun x => x <= 64)) [[2; 4]; [64; 1; 8]])
    by (repeat constructor; lia).
  split; [exact Hne|]. split; [exact Hall|].
  exact (proj1 (check_pivots_below_threshold _) Hne Hall).
Defined.

(** ** The labels of [next_move] *)

Lemma for_each_invariant {I S : Type} (P : S -> Prop) (l : list I)
    (body : I -> S -> result S) (s s' : S) :
  P s ->
  (forall i s1 s2, In i l -> P s1 -> body i s1 = Ok s2 -> P s2) ->
  for_each l body s = Ok s' -> P s'.
Proof.
  revert s. induction l as [|i l IH]; intros s Hs Hstep H.
  - cbn in H. now injection H as <-.
  - cbn [for_each] in H. destruct (body i s) as [s1|e] eqn:Hb;
      [|discriminate H]. cbn [bind] in H.
    apply (IH s1); auto.
    + apply (Hstep i s s1); auto. now left.
    + intros j s2 s3 Hj. apply Hstep. now right.
Qed.

Lemma for_return_values {R : Type} (P : R -> Prop) (l : list Z)
    (body : Z -> result (ctl R)) :
  (forall i r, body i = Ok (Return r) -> P r) ->
  forall r, for_return l body = Ok (Return r) -> P r.
Proof.
  intros Hbody r. induction l as [|i l IH]; cbn [for_return]; intros H.
  - discriminate H.
  - destruct (body i) as [[r0|]|e] eqn:Hb; cbn [bind] in H;
      try discriminate H.
    + injection H as <-. now apply (Hbody i).
    + now apply IH.
Qed.

Lemma pivot_scan_values (b : list (list Z)) (row expected : Z) (m : move)
    (l : list Z) (r : option move) :
  for_return l (pivot_scan_body b row expected m) = Ok (Return r) ->
  r = Some m \/ r = Some Undo.
Proof.
  apply (for_return_values (fun r => r = Some m \/ r = Some Undo)).
  intros i r0. unfold pivot_scan_body.
  destruct (getitem b row) as [rw|e]; cbn [bind]; [|discriminate].
  destruct (getitem rw i) as [x|e]; cbn [bind]; [|discriminate].
  destruct (x =? 1); [discriminate|].
  destruct (x =? expected); intros H; injection H as <-; auto.
Qed.

Lemma pivot_body_values (b : list (list Z)) (bl : list Z) (row : Z)
    (r : option move) :
  pivot_body b bl row = Ok (Return r) -> pivot_label r.
Proof.
  unfold pivot_body, pivot_label.
  destruct (getitem bl ((rows - row - 1) * cols)) as [e|x]; cbn [bind];
    [|discriminate].
  destruct (e <=? 64); [intros H; injection H as <-; auto|].
  destruct (pivot_even_cond b bl row _ e) as [even|x]; cbn [bind];
    [|discriminate].
  destruct (if even
            then for_return (range_down (cols - 1) (-1))
                   (pivot_scan_body b row e Right)
            else Ok Continue) as [[r1|]|x] eqn:H1; cbn [bind];
    try discriminate.
  - intros H. injection H as <-. destruct even; [|discriminate H1].
    apply pivot_scan_values in H1. intuition.
  - destruct (pivot_odd_cond b bl row _ e) as [odd|x]; cbn [bind];
      [|discriminate].
    destruct odd; [|discriminate].
    intros H. apply pivot_scan_values in H. intuition.
Qed.

Lemma check_pivots_values (b : list (list Z)) (r : option move) :
  check_pivots b = Ok r -> pivot_label r.
Proof.
  unfold check_pivots.
  destruct (for_return _ (pivot_body b (sort_desc (concat b))))
    as [[r0|]|e] eqn:H; cbn [bind]; try discriminate.
  - intros H'. injection H' as <-.
    revert H. apply (for_return_values pivot_label).
    intros i r1. apply pivot_body_values.
  - intros H'. injection H' as <-. now left.
Qed.

Lemma expand_body_labels (p : list (list Z) * option move)
    (acc acc' : list (list (list Z) * option move)) :
  snd p = None \/ labelled p ->
  Forall labelled acc -> expand_body p acc = Ok acc' -> Forall labelled acc'.
Proof.
  destruct p as [b mv]. unfold expand_body. intros Hp Hacc.
  destruct (down b) as [d|e]; cbn [bind]; [|discriminate].
  destruct (left b) as [l|e]; cbn [bind]; [|discriminate].
  destruct (right b) as [r|e]; cbn [bind]; [|discriminate].
  destruct mv as [m|]; intros H; injection H as <-;
    apply Forall_app; (split; [exact Hacc|]).
  - destruct Hp as [Hp | (m' & Hm' & Hd)]; [discriminate Hp|].
    cbn in Hm'. injection Hm' as <-.
    repeat constructor; exists m; auto.
  - repeat constructor; eexists; (split; [reflexivity|]);
      unfold direction; auto.
Qed.

Lemma expand_labels (current next : list (list (list Z) * option move)) :
  Forall (fun p => snd p = None \/ labelled p) current ->
  for_each current expand_body [] = Ok next -> Forall labelled next.
Proof.
  intros Hcur. apply (for_each_invariant (Forall labelled)); [constructor|].
  intros p s1 s2 Hin Hs1. apply expand_body_labels; [|exact Hs1].
  rewrite Forall_forall in Hcur. auto.
Qed.

Lemma possible_boards_labels (b : list (list Z))
    (leaves : list (list (list Z) * option move)) :
  possible_boards b = Ok leaves -> Forall labelled leaves.
Proof.
  unfold possible_boards. change (range lookahead) with [0; 1; 2].
  rewrite for_each_cons.
  destruct (for_each [(b, None)] expand_body []) as [l1|e] eqn:H1;
    cbn [bind]; [|discriminate].
  rewrite for_each_cons.
  destruct (for_each l1 expand_body []) as [l2|e] eqn:H2;
    cbn [bind]; [|discriminate].
  rewrite for_each_cons.
  destruct (for_each l2 expand_body []) as [l3|e] eqn:H3;
    cbn [bind]; [|discriminate].
  intros H. change (Ok l3 = Ok leaves) in H. injection H as <-.
  apply expand_labels in H1; [|repeat constructor; now left].
  apply expand_labels in H2;
    [|eapply Forall_impl; [|exact H1]; intros p; now right].
  apply expand_labels in H3;
    [|eapply Forall_impl; [|exact H2]; intros p; now right].
  exact H3.
Qed.

Lemma score_boards_labels (leaves : list (list (list Z) * option move))
    (acc scored : list (fval * option move)) :
  ofor_each leaves
    (fun p scored_boards =>
       s <~ score (fresh (fst p)) ;; Done (scored_boards ++ [(s, snd p)]))
    acc
  = Done scored ->
  map snd scored = map snd acc ++ map snd leaves.
Proof.
  revert acc. induction leaves as [|p leaves IH]; intros acc H.
  - cbn in H. injection H as <-. now rewrite app_nil_r.
  - cbn [ofor_each] in H. destruct (score (fresh (fst p))) as [s|e|];
      cbn [obind] in H; [|discriminate H|discriminate H].
    rewrite (IH _ H), map_app, <- app_assoc. reflexivity.
Qed.

Lemma exact_scores_labels {L : Type} (l : list (fval * L))
    (l' : list (Z * L)) :
  exact_scores l = Some l' -> map snd l' = map snd l.
Proof.
  revert l'. induction l as [|[[z|] m] l IH]; intros l' H; cbn in H.
  - now injection H as <-.
  - destruct (exact_scores l) as [r|]; [|discriminate H].
    injection H as <-. cbn. now rewrite (IH r eq_refl).
  - discriminate H.
Qed.

Lemma sort_head_In {L : Type} (l : list (Z * L)) (x : Z * L)
    (rest : list (Z * L)) :
  sort_by_score_desc l = x :: rest -> In x l.
Proof.
  intros H. pose proof (sort_head_first_max l) as Hhd.
  rewrite H in Hhd. cbn in Hhd. symmetry in Hhd.
  destruct (first_max_is_first_best l x Hhd) as (i & Hi & _).
  eapply nth_error_In. exact Hi.
Qed.

Lemma next_move_labels (b : list (list Z)) (mv : option move) :
  next_move b = Done mv -> issued mv.
Proof.
  unfold next_move, issued.
  destruct (check_pivots b) as [[m|]|e] eqn:Hp; [| |discriminate].
  - intros H. injection H as <-. exists m. split; [reflexivity|].
    destruct (check_pivots_values b _ Hp) as [H | [H | [H | H]]];
      try discriminate H; injection H as ->; unfold direction; auto.
  - cbv zeta.
    destruct (possible_boards b) as [leaves|e] eqn:Hl; cbn [follow obind];
      [|discriminate].
    destruct (score_boards leaves) as [scored|e|] eqn:Hs; cbn [obind];
      [|discriminate|discriminate].
    destruct (exact_scores scored) as [exact|] eqn:He; [|discriminate].
    destruct (sort_by_score_desc exact) as [|[s mv'] rest] eqn:Hsort.
    + intros H. injection H as <-. exists Undo. auto.
    + intros H. injection H as <-.
      apply sort_head_In in Hsort.
      apply (in_map snd) in Hsort. cbn [snd] in Hsort.
      rewrite (exact_scores_labels _ _ He) in Hsort.
      unfold score_boards in Hs.
      rewrite (score_boards_labels _ _ _ Hs) in Hsort. cbn [map app] in Hsort.
      apply in_map_iff in Hsort. destruct Hsort as (p & Hp' & Hin).
      pose proof (possible_boards_labels b leaves Hl) as Hlab.
      rewrite Forall_forall in Hlab.
      destruct (Hlab p Hin) as (m & Hm & Hd).
      exists m. split; [congruence | now left].
Qed.





(** ** What [next_board] returns *)

Lemma board_eqb_true (b b' : list (list Z)) : board_eqb b b' = true -> b = b'.
Proof.
  unfold board_eqb.
  destruct (list_eq_dec (list_eq_dec Z.eq_dec) b b'); [auto | discriminate].
Qed.

Lemma board_eqb_false (b b' : list (list Z)) :
  board_eqb b b' = false -> b <> b'.
Proof.
  unfold board_eqb.
  destruct (list_eq_dec (list_eq_dec Z.eq_dec) b b'); [discriminate | auto].
Qed.

Lemma rotate_changed (fuel : nat) (b up : list (list Z)) (mv : option move) :
  board_eqb b up = false -> rotate fuel b mv up = Some (Ok (mv, up)).
Proof. intros H. destruct fuel; cbn [rotate]; now rewrite H. Qed.

(** The loop leaves only with a board that differs from the input: the
    one it was entered with, or the result of the direction tried last. *)
Lemma rotate_result (fuel : nat) (b : list (list Z)) :
  forall mv up mv' b',
    rotate fuel b mv up = Some (Ok (mv', b')) ->
    b' <> b /\
    ((mv' = mv /\ b' = up) \/
     exists m, mv' = Some m /\ direction m /\ run m b = Ok b').
Proof.
  induction fuel as [|fuel IH]; intros mv up mv' b'; cbn [rotate];
    destruct (board_eqb b up) eqn:Heq.
  - discriminate.
  - intros H. injection H as <- <-.
    split; [apply not_eq_sym, board_eqb_false, Heq | now left].
  - assert (Hstep : forall m t,
              direction m -> run m b = t ->
              match t with
              | Ok t' => rotate fuel b (Some m) t'
              | Raise e => Some (Raise e)
              end = Some (Ok (mv', b')) ->
              b' <> b /\
              ((mv' = mv /\ b' = up) \/
               exists m0, mv' = Some m0 /\ direction m0 /\ run m0 b = Ok b')).
    { intros m t Hd Hrun H. destruct t as [t'|e]; [|discriminate H].
      destruct (IH _ _ _ _ H) as (Hne & [[-> ->] | Hex]).
      - split; [exact Hne|]. right. exists m. auto.
      - split; [exact Hne|]. now right. }
    destruct mv as [[]|];
      first [ apply (Hstep Left); [unfold direction; auto | reflexivity]
            | apply (Hstep Right); [unfold direction; auto | reflexivity]
            | apply (Hstep Down); [unfold direction; auto | reflexivity] ].
  - intros H. injection H as <- <-.
    split; [apply not_eq_sym, board_eqb_false, Heq | now left].
Qed.

Lemma apply_move_direction (m : move) (b : list (list Z)) :
  direction m -> apply_move (Some m) b = run m b.
Proof.
  intros [-> | [-> | ->]]; unfold apply_move, run.
  - destruct (down b); reflexivity.
  - destruct (left b); reflexivity.
  - destruct (right b); reflexivity.
Qed.

Lemma next_board_cases (fuel : nat) (b b' : list (list Z)) (k : option key) :
  next_board fuel b = Some (Done (b', k)) ->
  (next_move b = Done (Some Undo) /\ b' = all_sentinel /\ k = Some KeyU) \/
  (b' <> b /\
   exists m, direction m /\ run m b = Ok b' /\ k = press_key (Some m)).
Proof.
  unfold next_board.
  destruct (next_move b) as [mv| |] eqn:Hmv; try discriminate.
  destruct (next_move_labels b mv Hmv) as (m & -> & [Hd | ->]).
  - assert (Hrest :
      match apply_move (Some m) b with
      | Ok upcoming_board =>
          match rotate fuel b (Some m) upcoming_board with
          | Some (Ok (mv', b'0)) => Some (Done (b'0, press_key mv'))
          | Some (Raise e) => Some (Raised e)
          | None => None
          end
      | Raise e => Some (Raised e)
      end = Some (Done (b', k)) ->
      b' <> b /\
      exists m0, direction m0 /\ run m0 b = Ok b' /\
                 k = press_key (Some m0)).
    { rewrite (apply_move_direction m b Hd).
      destruct (run m b) as [up|e] eqn:Hrun; [|discriminate].
      destruct (rotate fuel b (Some m) up) as [[[mv' b'']|e]|] eqn:Hrot;
        try discriminate.
      intros H. injection H as <- <-.
      destruct (rotate_result _ _ _ _ _ _ Hrot)
        as (Hne & [[-> ->] | (m0 & -> & Hd0 & Hr0)]).
      - split; [exact Hne|]. exists m. auto.
      - split; [exact Hne|]. exists m0. auto. }
    intros H. right. apply Hrest.
    destruct Hd as [-> | [-> | ->]]; exact H.
  - intros H. injection H as <- <-. left. auto.
Qed.

(** X9. What [next_board] returns. Whenever [next_board] returns a board,
    either [next_move] said undo, the board is the all-sentinel board and
    the key pressed is u, or the board differs from the input, it is what
    one of [down], [left], [right] returns on the input, and the key
    pressed is the key of that direction. *)
Theorem next_board_returns_a_changed_board
    (fuel : nat) (b b' : list (list Z)) (k : option key) :
  next_board fuel b = Some (Done (b', k)) ->
  (next_move b = Done (Some Undo) /\ b' = all_sentinel /\ k = Some KeyU) \/
  (b' <> b /\
   exists m, direction m /\ run m b = Ok b' /\ k = press_key (Some m)).
Proof. apply next_board_cases. Qed.

Lemma next_board_returns_a_changed_board_witness :
  next_board 0 fixture
  = Some (Done ([[4; 2; 1; 1]; [4; 16; 4; 1]; [8; 64; 32; 8];
                 [32; 128; 512; 16384]], Some KeyLeft)) /\
  ((next_move fixture = Done (Some Undo) /\
    [[4; 2; 1; 1]; [4; 16; 4; 1]; [8; 64; 32; 8]; [32; 128; 512; 16384]]
    = all_sentinel /\ Some KeyLeft = Some KeyU) \/
   ([[4; 2; 1; 1]; [4; 16; 4; 1]; [8; 64; 32; 8]; [32; 128; 512; 16384]]
    <> fixture /\
    exists m, direction m /\
      run m fixture
      = Ok [[4; 2; 1; 1]; [4; 16; 4; 1]; [8; 64; 32; 8];
            [32; 128; 512; 16384]] /\
      Some KeyLeft = press_key (Some m))).
Proof.
  assert (H : next_board 0 fixture
              = Some (Done ([[4; 2; 1; 1]; [4; 16; 4; 1]; [8; 64; 32; 8];
                             [32; 128; 512; 16384]], Some KeyLeft)))
    by (vm_compute; reflexivity).
  split; [exact H|].
  exact (next_board_returns_a_changed_board 0 fixture _ _ H).
Defined.

(** X10. After the key u, the board [next_board] hands back is in the
    initialization state of the perception cycle:
    [is_board_filled_with_ones] holds of it. *)
Theorem undo_returns_initial_board
    (fuel : nat) (b b' : list (list Z)) :
  next_board fuel b = Some (Done (b', Some KeyU)) ->
  is_board_filled_with_ones b' = true.
Proof.
  intros H. destruct (next_board_cases _ _ _ _ H)
    as [(_ & -> & _) | (_ & m & Hd & _ & Hk)].
  - reflexivity.
  - destruct Hd as [-> | [-> | ->]]; discriminate Hk.
Qed.

Lemma undo_returns_initial_board_witness :
  next_board 0 pivot_blocked = Some (Done (all_sentinel, Some KeyU)) /\
  is_board_filled_with_ones all_sentinel = true.
Proof.
  assert (H : next_board 0 pivot_blocked
              = Some (Done (all_sentinel, Some KeyU)))
    by (vm_compute; reflexivity).
  split; [exact H|].
  exact (undo_returns_initial_board 0 pivot_blocked all_sentinel H).
Defined.

Ltac run_rotate :=
  cbn [rotate];
  repeat (match goal with
          | H : board_eqb _ _ = _ |- _ => rewrite H
          | H : left _ = Ok _ |- _ => rewrite H
          | H : right _ = Ok _ |- _ => rewrite H
          | H : down _ = Ok _ |- _ => rewrite H
          end; cbn beta iota);
  first [ reflexivity | now apply rotate_changed ].

Lemma rotate_within_two (b up : list (list Z)) (m : move) :
  board4x4 b -> direction m -> run m b = Ok up -> ~ stuck b ->
  exists mv' b',
    forall fuel, rotate (S (S fuel)) b (Some m) up = Some (Ok (mv', b')).
Proof.
  intros Hb Hd Hrun Hns.
  pose proof (left_4x4 b Hb) as Hl.
  pose proof (right_4x4 b Hb) as Hr.
  pose proof (down_4x4 b Hb) as Hdn.
  set (L := map left_line b) in *.
  set (R := map right_line b) in *.
  set (D := transpose4 (map right_line (transpose4 b))) in *.
  assert (Hsome : board_eqb b L = false \/ board_eqb b R = false \/
                  board_eqb b D = false).
  { destruct (board_eqb b L) eqn:HL; [|auto].
    destruct (board_eqb b R) eqn:HR; [|auto].
    destruct (board_eqb b D) eqn:HD; [|auto].
    exfalso. apply Hns. unfold stuck.
    apply board_eqb_true in HL, HR, HD. rewrite Hl, Hr, Hdn.
    repeat split; congruence. }
  destruct Hd as [-> | [-> | ->]]; cbn [run] in Hrun;
    rewrite ?Hl, ?Hr, ?Hdn in Hrun; injection Hrun as <-.
  - destruct (board_eqb b D) eqn:HD;
      [|exists (Some Down), D; intros fuel; run_rotate].
    destruct (board_eqb b L) eqn:HL.
    + destruct (board_eqb b R) eqn:HR;
        [destruct Hsome as [H | [H | H]]; discriminate H|].
      exists (Some Right), R. intros fuel. run_rotate.
    + exists (Some Left), L. intros fuel. run_rotate.
  - destruct (board_eqb b L) eqn:HL;
      [|exists (Some Left), L; intros fuel; run_rotate].
    destruct (board_eqb b R) eqn:HR.
    + destruct (board_eqb b D) eqn:HD;
        [destruct Hsome as [H | [H | H]]; discriminate H|].
      exists (Some Down), D. intros fuel. run_rotate.
    + exists (Some Right), R. intros fuel. run_rotate.
  - destruct (board_eqb b R) eqn:HR;
      [|exists (Some Right), R; intros fuel; run_rotate].
    destruct (board_eqb b D) eqn:HD.
    + destruct (board_eqb b L) eqn:HL;
        [destruct Hsome as [H | [H | H]]; discriminate H|].
      exists (Some Left), L. intros fuel. run_rotate.
    + exists (Some Down), D. intros fuel. run_rotate.
Qed.

(** X11. [next_board] returns unless the board is stuck. On a 4x4 board
    for which [next_move] picks a direction, if at least one of [left],
    [right], [down] changes the board, the rotation loop ends after at most
    two iterations: [next_board] returns the same board and key for every
    bound of two or more iterations. *)
Theorem next_board_returns_unless_stuck (b : list (list Z)) (m : move) :
  board4x4 b -> next_move b = Done (Some m) -> direction m -> ~ stuck b ->
  exists b' k,
    forall fuel, (2 <= fuel)%nat -> next_board fuel b = Some (Done (b', k)).
Proof.
  intros Hb Hmv Hd Hns.
  assert (Hrun : exists up, run m b = Ok up).
  { destruct Hd as [-> | [-> | ->]]; cbn [run];
      [rewrite (down_4x4 b Hb) | rewrite (left_4x4 b Hb)
       | rewrite (right_4x4 b Hb)]; eauto. }
  destruct Hrun as (up & Hrun).
  destruct (rotate_within_two b up m Hb Hd Hrun Hns) as (mv' & b' & Hrot).
  exists b', (press_key mv'). intros fuel Hfuel.
  destruct fuel as [|[|fuel]]; try lia.
  unfold next_board. rewrite Hmv, (apply_move_direction m b Hd), Hrun, Hrot.
  destruct Hd as [-> | [-> | ->]]; reflexivity.
Qed.

Lemma next_board_returns_unless_stuck_witness :
  board4x4 fixture /\ next_move fixture = Done (Some Left) /\
  direction Left /\ ~ stuck fixture /\
  exists b' k,
    forall fuel, (2 <= fuel)%nat ->
      next_board fuel fixture = Some (Done (b', k)).
Proof.
  assert (Hb : board4x4 fixture) by (apply board4x4b_sound; reflexivity).
  assert (Hm : next_move fixture = Done (Some Left))
    by (vm_compute; reflexivity).
  assert (Hd : direction Left) by (right; left; reflexivity).
  assert (Hns : ~ stuck fixture).
  { intros (Hl & _). vm_compute in Hl. discriminate Hl. }
  repeat (split; [assumption|]).
  exact (next_board_returns_unless_stuck fixture Left Hb Hm Hd Hns).
Defined.

(** ** The perception cycle: the initial state and the reference images *)

Lemma row_has_other_cell_false (row : list Z) :
  row_has_other_cell row = false <-> Forall (fun x => x = 1) row.
Proof.
  induction row as [|x row IH]; cbn [row_has_other_cell].
  - split; [constructor | reflexivity].
  - destruct (Z.eqb_spec x 1) as [-> | Hx]; cbn [negb].
    + rewrite IH. split; [now constructor | intros H; now inversion H].
    + split; [discriminate | intros H; inversion H; contradiction].
Qed.

Lemma filter_occupied_nil (l : list Z) :
  filter occupied l = [] <-> Forall (fun x => x = 1) l.
Proof.
  induction l as [|x l IH]; cbn [filter].
  - split; [constructor | reflexivity].
  - unfold occupied at 1. destruct (Z.eqb_spec x 1) as [-> | Hx]; cbn [negb].
    + rewrite IH. split; [now constructor | intros H; now inversion H].
    + split; [discriminate | intros H; inversion H; contradiction].
Qed.

(** X12. [is_board_filled_with_ones] holds exactly of the boards all of
    whose cells are 1, which are the boards without a tile in the sense of
    the transforms. *)
Theorem filled_with_ones_iff_no_tile (b : list (list Z)) :
  (is_board_filled_with_ones b = true <->
   Forall (Forall (fun x => x = 1)) b) /\
  (is_board_filled_with_ones b = true <-> tiles b = []).
Proof.
  assert (H1 : is_board_filled_with_ones b = true <->
               Forall (Forall (fun x => x = 1)) b).
  { induction b as [|row b IH]; cbn [is_board_filled_with_ones].
    - split; [constructor | reflexivity].
    - destruct (row_has_other_cell row) eqn:Hrow.
      + split; [discriminate|]. intros H. inversion H as [|? ? Hr _]; subst.
        apply row_has_other_cell_false in Hr. congruence.
      + apply row_has_other_cell_false in Hrow. rewrite IH.
        split; [now constructor | intros H; now inversion H]. }
  split; [exact H1|]. rewrite H1. unfold tiles.
  rewrite filter_occupied_nil. clear H1.
  induction b as [|row b IH]; cbn [concat].
  - split; constructor.
  - rewrite Forall_app. split.
    + intros H. inversion H; subst. split; [assumption | now apply IH].
    + intros [Hr Hb]. constructor; [assumption | now apply IH].
Qed.

Lemma land_pred_pow2 (k : Z) : 0 <= k -> Z.land (2 ^ k) (2 ^ k - 1) = 0.
Proof.
  intros Hk. replace (2 ^ k - 1) with (Z.ones k)
    by (rewrite Z.ones_equiv; lia).
  rewrite Z.land_ones by exact Hk. apply Z.mod_same.
  apply Z.pow_nonzero; lia.
Qed.

Lemma power_of_two_test (v : Z) :
  is_power_of_two_value v = true <-> exists k, 0 <= k /\ v = 2 ^ k.
Proof.
  unfold is_power_of_two_value. rewrite andb_true_iff, negb_true_iff.
  rewrite Z.eqb_eq, Z.eqb_neq. split.
  - intros [Hland Hne].
    assert (Hpos : 0 < v).
    { destruct (Z.lt_trichotomy v 0) as [Hneg | [-> | Hp]];
        [|congruence | exact Hp].
      assert (Z.land v (v - 1) < 0) by (apply Z.land_neg; lia). lia. }
    exists (Z.log2 v). split; [apply Z.log2_nonneg|].
    destruct (Z.log2_spec v Hpos) as [Hlo Hhi].
    destruct (Z.eq_dec v (2 ^ Z.log2 v)) as [Heq | Hneq]; [exact Heq|].
    exfalso.
    assert (Hpow : 0 < 2 ^ Z.log2 v)
      by (apply Z.pow_pos_nonneg; [lia | apply Z.log2_nonneg]).
    assert (Hlog : Z.log2 (v - 1) = Z.log2 v).
    { apply Z.log2_unique; [apply Z.log2_nonneg | lia]. }
    assert (Hbit : Z.testbit (Z.land v (v - 1)) (Z.log2 v) = true).
    { rewrite Z.land_spec, (Z.bit_log2 v Hpos).
      rewrite <- Hlog. rewrite Z.bit_log2; [reflexivity | lia]. }
    rewrite Hland, Z.bits_0 in Hbit. discriminate Hbit.
  - intros (k & Hk & ->). split; [now apply land_pred_pow2|].
    apply Z.pow_nonzero; lia.
Qed.

Lemma power_of_two_filenames_acc {filename image : Type}
    (lower : filename -> filename) (basename_isdigit : filename -> bool)
    (basename_int : filename -> result Z)
    (folder_images : list (Z * filename * image))
    (acc names : list filename) :
  for_each folder_images
    (fun entry power_of_two_filenames =>
       let name := lower (snd (fst entry)) in
       if basename_isdigit name then
         value <- basename_int name ;;
         if is_power_of_two_value value
         then Ok (power_of_two_filenames ++ [name])
         else Ok power_of_two_filenames
       else Ok power_of_two_filenames)
    acc = Ok names ->
  names
  = acc ++ map (fun entry => lower (snd (fst entry)))
             (filter (fun entry =>
                        basename_isdigit (lower (snd (fst entry))) &&
                        match basename_int (lower (snd (fst entry))) with
                        | Ok value => is_power_of_two_value value
                        | Raise _ => false
                        end) folder_images).
Proof.
  revert acc. induction folder_images as [|entry l IH]; intros acc;
    cbn [for_each filter map].
  - intros H. injection H as <-. now rewrite app_nil_r.
  - cbv zeta.
    destruct (basename_isdigit (lower (snd (fst entry)))); cbn [andb bind].
    + destruct (basename_int (lower (snd (fst entry)))) as [value|e];
        cbn [bind]; [|discriminate].
      destruct (is_power_of_two_value value); cbn [bind].
      * intros H. apply IH in H. rewrite H. cbn [map].
        now rewrite <- app_assoc.
      * apply IH.
    + apply IH.
Qed.

(** X13. When [get_all_power_of_two_filenames] returns, it returns the
    lower-cased names of the folder whose basename is a number of the form
    [2 ^ k] with [k >= 0], and no other name: the test
    [value & (value - 1) == 0 and value != 0] holds exactly of the powers
    of two, 1 included. *)
Theorem power_of_two_filenames_are_powers_of_two
    {filename image : Type}
    (lower : filename -> filename) (basename_isdigit : filename -> bool)
    (basename_int : filename -> result Z)
    (folder_images : list (Z * filename * image))
    (names : list filename) (name : filename) :
  get_all_power_of_two_filenames lower basename_isdigit basename_int
    folder_images = Ok names ->
  (forall v, is_power_of_two_value v = true <-> exists k, 0 <= k /\ v = 2 ^ k)
  /\
  (In name names <->
   exists entry k,
     In entry folder_images /\ name = lower (snd (fst entry)) /\
     basename_isdigit name = true /\
     0 <= k /\ basename_int name = Ok (2 ^ k)).
Proof.
  intros Hrun. split; [exact power_of_two_test|].
  unfold get_all_power_of_two_filenames in Hrun.
  apply power_of_two_filenames_acc in Hrun. cbn [app] in Hrun. subst names.
  rewrite in_map_iff. split.
  - intros (entry & <- & Hin). apply filter_In in Hin.
    destruct Hin as [Hin Htest]. apply andb_true_iff in Htest.
    destruct Htest as [Hdigit Htest].
    destruct (basename_int (lower (snd (fst entry)))) as [v|e] eqn:Hv;
      [|discriminate Htest].
    apply power_of_two_test in Htest. destruct Htest as (k & Hk & ->).
    exists entry, k. auto.
  - intros (entry & k & Hin & -> & Hdigit & Hk & Hv).
    exists entry. split; [reflexivity|]. apply filter_In.
    split; [exact Hin|]. rewrite Hdigit, Hv. apply power_of_two_test. eauto.
Qed.

Lemma power_of_two_filenames_are_powers_of_two_witness :
  get_all_power_of_two_filenames (fun name : Z => name) (fun _ => true)
    (fun name => Ok name) [(0, 4, tt); (1, 6, tt); (2, 1, tt)] = Ok [4; 1] /\
  (In 4 [4; 1] <->
   exists (entry : Z * Z * unit) k,
     In entry [(0, 4, tt); (1, 6, tt); (2, 1, tt)] /\
     4 = snd (fst entry) /\ true = true /\ 0 <= k /\ Ok 4 = Ok (2 ^ k)).
Proof.
  assert (Hrun : get_all_power_of_two_filenames (fun name : Z => name)
                   (fun _ => true) (fun name => Ok name)
                   [(0, 4, tt); (1, 6, tt); (2, 1, tt)] = Ok [4; 1])
    by reflexivity.
  split; [exact Hrun|].
  exact (proj2 (power_of_two_filenames_are_powers_of_two
                  (fun name : Z => name) (fun _ => true)
                  (fun name => Ok name) _ [4; 1] 4 Hrun)).
Defined.

(** ** The perception cycle: which cells [main] writes *)

Lemma update_length {A : Type} (l : list A) (n : nat) (v : A) :
  length (update l n v) = length l.
Proof.
  revert n. induction l as [|x l IH]; intros [|n]; cbn; auto.
Qed.

Lemma nth_error_update_same {A : Type} (l : list A) (n : nat) (v : A) :
  (n < length l)%nat -> nth_error (update l n v) n = Some v.
Proof.
  revert n. induction l as [|x l IH]; intros [|n] H; cbn in *; try lia; auto.
  apply IH. lia.
Qed.

Lemma nth_error_update_other {A : Type} (l : list A) (n m : nat) (v : A) :
  n <> m -> nth_error (update l n v) m = nth_error l m.
Proof.
  revert n m. induction l as [|x l IH]; intros [|n] [|m] H; cbn; auto.
  congruence.
Qed.

Lemma getitem_nonneg {A : Type} (l : list A) (i : Z) :
  0 <= i ->
  getitem l i = match nth_error l (Z.to_nat i) with
                | Some x => Ok x
                | None => Raise IndexError
                end.
Proof.
  intros Hi. unfold getitem, norm_index.
  destruct (Z.ltb_spec i 0); [lia|]. destruct (Z.ltb_spec i 0); [lia|].
  reflexivity.
Qed.

Lemma setitem_nonneg {A : Type} (l l' : list A) (i : Z) (v : A) :
  0 <= i -> setitem l i v = Ok l' ->
  l' = update l (Z.to_nat i) v /\ (Z.to_nat i < length l)%nat.
Proof.
  intros Hi. unfold setitem, norm_index, len.
  destruct (Z.ltb_spec i 0); [lia|]. destruct (Z.ltb_spec i 0); [lia|].
  cbn [orb]. destruct (Z.leb_spec (Z.of_nat (length l)) i); [discriminate|].
  intros H'. injection H' as <-. split; [reflexivity | lia].
Qed.

Lemma getitem_In {A : Type} (l : list A) (i : Z) (x : A) :
  getitem l i = Ok x -> In x l.
Proof.
  unfold getitem. destruct (norm_index l i <? 0); [discriminate|].
  destruct (nth_error l (Z.to_nat (norm_index l i))) as [y|] eqn:H;
    [|discriminate].
  intros H'. injection H' as <-. eapply nth_error_In. exact H.
Qed.

Lemma In_range (n i : Z) : In i (range n) -> 0 <= i < n.
Proof.
  unfold range. rewrite in_map_iff. intros (k & <- & Hk).
  apply in_seq in Hk. lia.
Qed.

(** Writing one cell leaves every other cell as it is. *)
Lemma setcell_frame (b b' : list (list Z)) (r0 c0 x r c : Z) :
  0 <= r0 -> 0 <= c0 -> 0 <= r -> 0 <= c ->
  setcell b r0 c0 x = Ok b' ->
  r <> r0 \/ c <> c0 ->
  getcell b' r c = getcell b r c.
Proof.
  intros Hr0 Hc0 Hr Hc Hset Hne. unfold setcell in Hset.
  destruct (getitem b r0) as [row|e] eqn:Hrow; cbn [bind] in Hset;
    [|discriminate Hset].
  destruct (setitem row c0 x) as [row'|e] eqn:Hrow'; cbn [bind] in Hset;
    [|discriminate Hset].
  apply setitem_nonneg in Hrow'; [|exact Hc0]. destruct Hrow' as [-> Hlc].
  apply setitem_nonneg in Hset; [|exact Hr0]. destruct Hset as [-> Hlr].
  rewrite getitem_nonneg in Hrow by exact Hr0.
  unfold getcell. rewrite !(getitem_nonneg _ r) by exact Hr.
  destruct (Z.eq_dec r r0) as [-> | Hrr].
  - rewrite nth_error_update_same by exact Hlr.
    destruct (nth_error b (Z.to_nat r0)) as [row0|]; [|discriminate Hrow].
    injection Hrow as ->. cbn [bind].
    rewrite !(getitem_nonneg _ c) by exact Hc.
    rewrite nth_error_update_other; [reflexivity|].
    destruct Hne as [Hne | Hne]; [congruence | lia].
  - rewrite nth_error_update_other by lia. reflexivity.
Qed.

Lemma collect_cell_indices_sentinel (b : list (list Z)) (rows cols n : Z)
    (cell_indices : list (Z * Z)) :
  collect_cell_indices b rows cols n = Ok cell_indices ->
  Forall (sentinel_position b) cell_indices.
Proof.
  unfold collect_cell_indices.
  apply (for_each_invariant (Forall (sentinel_position b)));
    [constructor|].
  intros row s1 s2 Hrow Hs1.
  apply (for_each_invariant (Forall (sentinel_position b))); [exact Hs1|].
  intros col t1 t2 Hcol Ht1. unfold cell_indices_body.
  destruct (getcell b row col) as [v|e] eqn:Hv; cbn [bind]; [|discriminate].
  destruct (Z.eqb_spec v 1) as [-> | Hv1];
    [|intros H; now injection H as <-].
  destruct (row * cols + col <? n); intros H; injection H as <-;
    [|exact Ht1].
  apply Forall_app. split; [exact Ht1|]. constructor; [|constructor].
  apply In_range in Hrow, Hcol. unfold sentinel_position. cbn [fst snd].
  repeat split; try lia. exact Hv.
Qed.

Lemma valid_cell_indices_subset (P : Z * Z -> Prop)
    (cell_indices valid : list (Z * Z)) (processed_ok : list bool) :
  Forall P cell_indices ->
  valid_cell_indices cell_indices processed_ok = Ok valid ->
  Forall P valid.
Proof.
  intros Hci. unfold valid_cell_indices.
  apply (for_each_invariant (Forall P)); [constructor|].
  intros i s1 s2 _ Hs1.
  destruct (getitem processed_ok i) as [[|]|e]; cbn [bind];
    try discriminate.
  - destruct (getitem cell_indices i) as [cell|e] eqn:Hc; cbn [bind];
      [|discriminate].
    intros H. injection H as <-. apply Forall_app. split; [exact Hs1|].
    constructor; [|constructor].
    rewrite Forall_forall in Hci. apply Hci. eapply getitem_In. exact Hc.
  - intros H. now injection H as <-.
Qed.

Lemma record_matches_frame (ids : list (option Z)) (valid : list (Z * Z))
    (b b' : list (list Z)) :
  Forall (sentinel_position b) valid ->
  record_matches ids valid b = Ok b' ->
  forall r c v, 0 <= r -> 0 <= c ->
    getcell b r c = Ok v -> v <> 1 -> getcell b' r c = Ok v.
Proof.
  intros Hvalid. unfold record_matches.
  apply (for_each_invariant
           (fun b1 => forall r c v, 0 <= r -> 0 <= c ->
              getcell b r c = Ok v -> v <> 1 -> getcell b1 r c = Ok v));
    [auto|].
  intros [idx mv] b1 b2 _ Hb1.
  destruct (getitem valid idx) as [cell|e] eqn:Hcell; cbn [bind];
    [|discriminate].
  apply getitem_In in Hcell. rewrite Forall_forall in Hvalid.
  destruct (Hvalid cell Hcell) as (H0 & H1 & Hone).
  intros Hset r c v Hr Hc Hv Hv1.
  assert (Hne : r <> fst cell \/ c <> snd cell).
  { destruct (Z.eq_dec r (fst cell)) as [-> | ?]; [|now left].
    destruct (Z.eq_dec c (snd cell)) as [-> | ?]; [|now right].
    rewrite Hone in Hv. congruence. }
  destruct mv as [x|];
    rewrite (setcell_frame _ _ _ _ _ r c H0 H1 Hr Hc Hset Hne); auto.
Qed.

(** X14. [main] only writes cells that hold 1. Whatever the images give
    (which of them could be preprocessed, which values were matched), if
    the bookkeeping of [main] returns a board, every cell of the input
    that held a value other than 1 holds the same value in the result. *)
Theorem main_keeps_known_cells (new_board b' : list (list Z))
    (rows cols n_reference_images : Z) (processed_ok : list bool)
    (similar_image_ids : list (option Z)) :
  update_board new_board rows cols n_reference_images processed_ok
    similar_image_ids = Ok b' ->
  forall r c v, 0 <= r -> 0 <= c ->
    getcell new_board r c = Ok v -> v <> 1 -> getcell b' r c = Ok v.
Proof.
  unfold update_board.
  destruct (collect_cell_indices new_board rows cols n_reference_images)
    as [ci|e] eqn:Hci; cbn [bind]; [|discriminate].
  apply collect_cell_indices_sentinel in Hci.
  destruct ci as [|p ci]; [intros H; injection H as <-; auto|].
  destruct (valid_cell_indices (p :: ci) processed_ok) as [valid|e] eqn:Hv;
    cbn [bind]; [|discriminate].
  apply (valid_cell_indices_subset _ _ _ _ Hci) in Hv.
  destruct (existsb (fun ok => ok) processed_ok);
    [|intros H; injection H as <-; auto].
  now apply record_matches_frame.
Qed.

Lemma main_keeps_known_cells_witness :
  update_board [[2; 1; 1; 1]; [1; 1; 1; 1]; [1; 1; 1; 1]; [1; 1; 4; 1]]
    4 4 16 (repeat true 14) (repeat (Some 2) 13 ++ [None])
  = Ok [[2; 2; 2; 2]; [2; 2; 2; 2]; [2; 2; 2; 2]; [2; 2; 4; -1]] /\
  getcell [[2; 2; 2; 2]; [2; 2; 2; 2]; [2; 2; 2; 2]; [2; 2; 4; -1]] 3 2
  = Ok 4.
Proof.
  assert (H : update_board
                [[2; 1; 1; 1]; [1; 1; 1; 1]; [1; 1; 1; 1]; [1; 1; 4; 1]]
                4 4 16 (repeat true 14) (repeat (Some 2) 13 ++ [None])
              = Ok [[2; 2; 2; 2]; [2; 2; 2; 2]; [2; 2; 2; 2]; [2; 2; 4; -1]])
    by (vm_compute; reflexivity).
  split; [exact H|].
  apply (main_keeps_known_cells _ _ _ _ _ _ _ H 3 2 4); try lia.
  reflexivity.
Defined.

(** ** The grid of cell images *)

Lemma clamp_index_nonneg {A : Type} (l : list A) (i : Z) :
  0 <= i -> clamp_index l i = Z.to_nat i.
Proof.
  intros Hi. unfold clamp_index, norm_index.
  destruct (Z.ltb_spec i 0); [lia|]. f_equal. lia.
Qed.

Lemma slice_len {A : Type} (l : list A) (i j : Z) :
  0 <= i <= j -> j <= len l -> len (slice l i j) = j - i.
Proof.
  intros Hij Hj. unfold slice, len in *.
  rewrite !clamp_index_nonneg by lia.
  rewrite length_skipn, length_firstn. lia.
Qed.

Lemma slice_getitem {A : Type} (l : list A) (i j k : Z) :
  0 <= i <= j -> j <= len l -> 0 <= k < j - i ->
  getitem (slice l i j) k = getitem l (i + k).
Proof.
  intros Hij Hj Hk. unfold len in Hj.
  rewrite !getitem_nonneg by lia. unfold slice.
  rewrite !clamp_index_nonneg by lia.
  rewrite nth_error_skipn, nth_error_firstn.
  replace (Z.to_nat i + Z.to_nat k)%nat with (Z.to_nat (i + k)) by lia.
  destruct (Nat.ltb_spec (Z.to_nat (i + k)) (Z.to_nat j)); [reflexivity|lia].
Qed.

Lemma slice_In {A : Type} (l : list A) (i j : Z) (x : A) :
  In x (slice l i j) -> In x l.
Proof.
  unfold slice. intros H.
  rewrite <- (firstn_skipn (clamp_index l j) l). apply in_or_app. left.
  rewrite <- (firstn_skipn (clamp_index l i) (firstn _ l)).
  apply in_or_app. now right.
Qed.

Lemma getitem_map {A B : Type} (f : A -> B) (l : list A) (i : Z) :
  getitem (map f l) i
  = match getitem l i with
    | Ok x => Ok (f x)
    | Raise e => Raise e
    end.
Proof.
  unfold getitem, norm_index, len. rewrite length_map.
  destruct (_ <? 0); [reflexivity|].
  rewrite nth_error_map. destruct (nth_error l _); reflexivity.
Qed.

Lemma getitem_in_range {A : Type} (l : list A) (i : Z) :
  0 <= i < len l -> exists x, getitem l i = Ok x.
Proof.
  intros Hi. unfold len in Hi. rewrite getitem_nonneg by lia.
  destruct (nth_error l (Z.to_nat i)) as [x|] eqn:H; [eauto|].
  apply nth_error_None in H. lia.
Qed.

(** The bounds of a cell lie inside the image. *)
Lemma cell_bounds (size n k : Z) :
  0 <= size -> 0 < n -> 0 <= k < n ->
  0 <= k * (size / n) <= k * (size / n) + size / n /\
  k * (size / n) + size / n <= size /\
  0 <= size / n.
Proof.
  intros Hs Hn Hk.
  assert (H1 : 0 <= size / n) by (apply Z.div_pos; lia).
  assert (H2 : n * (size / n) <= size) by (apply Z.mul_div_le; lia).
  nia.
Qed.

(** X15. Every cell image has the same shape and holds the pixels of its
    grid cell. For an image of [height] rows of [width] pixels, a grid of
    [rows] by [cols] cells and a cell position inside the grid,
    [get_cell_image] returns an image of [height // rows] rows of
    [width // cols] pixels whose pixel [(i, j)] is the pixel
    [(row * (height // rows) + i, col * (width // cols) + j)] of the
    board image. *)
Theorem cell_image_shape_and_pixels {pixel : Type}
    (board_img : list (list pixel)) (width row col rows cols : Z) :
  Forall (fun pixels => len pixels = width) board_img ->
  0 <= row < rows -> 0 <= col < cols ->
  exists cell_img,
    get_cell_image board_img width row col rows cols = Some cell_img /\
    len cell_img = len board_img / rows /\
    Forall (fun pixels => len pixels = width / cols) cell_img /\
    forall i j, 0 <= i < len board_img / rows -> 0 <= j < width / cols ->
      exists p,
        (pixels <- getitem cell_img i ;; getitem pixels j) = Ok p /\
        (pixels <- getitem board_img (row * (len board_img / rows) + i) ;;
         getitem pixels (col * (width / cols) + j)) = Ok p.
Proof.
  intros Hrect Hrow Hcol.
  assert (Hh : 0 <= len board_img) by (unfold len; lia).
  assert (Hw : len board_img = 0 \/ 0 <= width).
  { destruct Hrect as [|pixels ? Hp _]; [now left|].
    right. subst width. unfold len. lia. }
  unfold get_cell_image.
  destruct (Z.eqb_spec cols 0) as [|_]; [lia|].
  destruct (Z.eqb_spec rows 0) as [|_]; [lia|].
  set (ch := len board_img / rows). set (cw := width / cols).
  destruct (cell_bounds (len board_img) rows row) as (Hy1 & Hy2 & Hch);
    try lia.
  fold ch in Hy1, Hy2, Hch.
  eexists. split; [reflexivity|].
  assert (Hlen : len (slice board_img (row * ch) (row * ch + ch)) = ch)
    by (rewrite slice_len; lia).
  split; [unfold len in *; now rewrite length_map|].
  assert (Hrows : forall i, 0 <= i < ch ->
            exists pixels,
              getitem (slice board_img (row * ch) (row * ch + ch)) i
              = Ok pixels /\
              getitem board_img (row * ch + i) = Ok pixels /\
              len pixels = width).
  { intros i Hi. rewrite slice_getitem by lia.
    destruct (getitem_in_range board_img (row * ch + i)) as (pixels & Hp);
      [lia|].
    exists pixels. split; [exact Hp|]. split; [exact Hp|].
    apply getitem_In in Hp. rewrite Forall_forall in Hrect. auto. }
  assert (Hwpos : 0 < ch -> 0 <= width).
  { intros Hpos. destruct Hw as [H0 | ?]; [|assumption].
    unfold ch in Hpos. rewrite H0 in Hpos. rewrite Z.div_0_l in Hpos; lia. }
  split.
  - apply Forall_forall. intros pixels Hin.
    apply in_map_iff in Hin. destruct Hin as (src & <- & Hsrc).
    assert (Hsrcw : len src = width).
    { apply slice_In in Hsrc. rewrite Forall_forall in Hrect. auto. }
    assert (0 < ch).
    { destruct (slice board_img (row * ch) (row * ch + ch)) as [|q t];
        [contradiction Hsrc|].
      unfold len in Hlen. cbn [length] in Hlen. lia. }
    assert (0 <= width) by now apply Hwpos.
    destruct (cell_bounds width cols col) as (Hx1 & Hx2 & Hcw); try lia.
    fold cw in Hx1, Hx2, Hcw. rewrite slice_len; lia.
  - intros i j Hi Hj.
    destruct (Hrows i Hi) as (pixels & Hs & Hb & Hpw).
    assert (0 <= width) by (apply Hwpos; lia).
    destruct (cell_bounds width cols col) as (Hx1 & Hx2 & Hcw); try lia.
    fold cw in Hx1, Hx2, Hcw.
    rewrite getitem_map, Hs, Hb. cbn [bind].
    rewrite slice_getitem by lia.
    destruct (getitem_in_range pixels (col * cw + j)) as (p & Hp); [lia|].
    exists p. auto.
Qed.

Lemma cell_image_shape_and_pixels_witness :
  let img := [[1; 2; 3; 4; 5]; [6; 7; 8; 9; 10]; [11; 12; 13; 14; 15];
              [16; 17; 18; 19; 20]; [21; 22; 23; 24; 25]] in
  Forall (fun pixels => len pixels = 5) img /\
  0 <= 1 < 2 /\ 0 <= 0 < 2 /\
  get_cell_image img 5 1 0 2 2 = Some [[11; 12]; [16; 17]] /\
  exists cell_img,
    get_cell_image img 5 1 0 2 2 = Some cell_img /\
    len cell_img = len img / 2.
Proof.
  cbv zeta.
  assert (Hrect : Forall (fun pixels : list Z => len pixels = 5)
                    [[1; 2; 3; 4; 5]; [6; 7; 8; 9; 10]; [11; 12; 13; 14; 15];
                     [16; 17; 18; 19; 20]; [21; 22; 23; 24; 25]])
    by (repeat constructor).
  assert (Hr : 0 <= 1 < 2) by lia.
  assert (Hc : 0 <= 0 < 2) by lia.
  split; [exact Hrect|]. split; [exact Hr|]. split; [exact Hc|].
  split; [reflexivity|].
  destruct (cell_image_shape_and_pixels _ 5 1 0 2 2 Hrect Hr Hc)
    as (cell_img & H1 & H2 & _).
  exists cell_img. split; assumption.
Defined.

Lemma get_cell_image_grid {pixel : Type} (board_img : list (list pixel))
    (width row col rows cols : Z) :
  rows <> 0 -> cols <> 0 ->
  get_cell_image board_img width row col rows cols
  = Some (grid_cell board_img width rows cols row col).
Proof.
  intros Hr Hc. unfold get_cell_image, grid_cell.
  destruct (Z.eqb_spec cols 0); [contradiction|].
  destruct (Z.eqb_spec rows 0); [contradiction|]. reflexivity.
Qed.

Lemma append_loop {A B : Type} (g : A -> option B) (h : A -> B)
    (l : list A) (acc : list B) :
  (forall x, In x l -> g x = Some (h x)) ->
  fold_left
    (fun acc x =>
       match acc, g x with
       | Some done, Some y => Some (done ++ [y])
       | _, _ => None
       end) l (Some acc)
  = Some (acc ++ map h l).
Proof.
  revert acc. induction l as [|x l IH]; intros acc Hg; cbn [fold_left map].
  - now rewrite app_nil_r.
  - rewrite (Hg x) by now left. rewrite IH by (intros; apply Hg; now right).
    now rewrite <- app_assoc.
Qed.

Lemma nested_loop {A B C : Type} (step : option (list C) -> A -> B -> option (list C))
    (h : A -> B -> C) (rows_l : list A) (cols_l : list B) (acc : list C) :
  (forall a done, In a rows_l ->
     fold_left (fun acc b => step acc a b) cols_l (Some done)
     = Some (done ++ map (h a) cols_l)) ->
  fold_left (fun acc a => fold_left (fun acc b => step acc a b) cols_l acc)
    rows_l (Some acc)
  = Some (acc ++ flat_map (fun a => map (h a) cols_l) rows_l).
Proof.
  revert acc. induction rows_l as [|a l IH]; intros acc Hin;
    cbn [fold_left flat_map].
  - now rewrite app_nil_r.
  - rewrite Hin by now left.
    rewrite IH by (intros; apply Hin; now right).
    now rewrite <- app_assoc.
Qed.

Lemma nth_error_flat_map_const {A B : Type} (f : A -> list B) (c : nat)
    (l : list A) (i j : nat) :
  (forall x, In x l -> length (f x) = c) -> (j < c)%nat ->
  nth_error (flat_map f l) (i * c + j)
  = match nth_error l i with
    | Some x => nth_error (f x) j
    | None => None
    end.
Proof.
  intros Hlen Hj. revert i. induction l as [|x l IH]; intros i.
  - cbn. destruct i; destruct (_ + _)%nat; reflexivity.
  - cbn [flat_map]. destruct i as [|i].
    + cbn [Nat.mul Nat.add nth_error].
      apply nth_error_app1. rewrite Hlen by now left. exact Hj.
    + rewrite nth_error_app2 by (rewrite Hlen by (now left); lia).
      rewrite Hlen by now left.
      replace (S i * c + j - c)%nat with (i * c + j)%nat by lia.
      cbn [nth_error]. apply IH. intros y Hy. apply Hlen. now right.
Qed.

Lemma flat_map_const_length {A B : Type} (f : A -> list B) (c : nat)
    (l : list A) :
  (forall x, In x l -> length (f x) = c) ->
  length (flat_map f l) = (length l * c)%nat.
Proof.
  intros Hlen. induction l as [|x l IH]; [reflexivity|].
  cbn [flat_map length]. rewrite length_app, Hlen by now left.
  rewrite IH by (intros; apply Hlen; now right). lia.
Qed.

Lemma range_length (n : Z) : length (range n) = Z.to_nat n.
Proof. unfold range. now rewrite length_map, length_seq. Qed.

Lemma nth_error_range (n k : Z) :
  0 <= k < n -> nth_error (range n) (Z.to_nat k) = Some k.
Proof.
  intros Hk. unfold range. rewrite nth_error_map, nth_error_seq.
  destruct (Nat.ltb_spec (Z.to_nat k) (Z.to_nat n)); [|lia].
  cbn. f_equal. lia.
Qed.

Lemma range_nonpositive (n : Z) : n <= 0 -> range n = [].
Proof.
  intros Hn. unfold range.
  replace (Z.to_nat n) with 0%nat by lia. reflexivity.
Qed.

Lemma fold_left_unchanged {A B : Type} (l : list B) (a : A) :
  fold_left (fun acc _ => acc) l a = a.
Proof. induction l; cbn; auto. Qed.

(** X16. [capture_cell_images] returns the cell images in row-major
    order, which is the order [main] relies on with
    [index = row * cols + col]: for a grid with rows and columns the list
    has [rows * cols] elements and its element [row * cols + col] is the
    image [get_cell_image] crops for [(row, col)]. For a grid without rows
    or without columns the list is empty, and nothing is divided by
    zero. *)
Theorem capture_is_row_major {pixel : Type} (board_img : list (list pixel))
    (width rows cols : Z) :
  (rows <= 0 \/ cols <= 0 ->
   capture_cell_images board_img width rows cols = Some []) /\
  (0 < rows -> 0 < cols ->
   exists cell_images,
     capture_cell_images board_img width rows cols = Some cell_images /\
     len cell_images = rows * cols /\
     forall row col, 0 <= row < rows -> 0 <= col < cols ->
       exists cell_img,
         get_cell_image board_img width row col rows cols = Some cell_img /\
         getitem cell_images (row * cols + col) = Ok cell_img).
Proof.
  unfold capture_cell_images. split.
  - intros [Hr | Hc].
    + now rewrite (range_nonpositive rows Hr).
    + rewrite (range_nonpositive cols Hc). cbn [fold_left].
      apply fold_left_unchanged.
  - intros Hr Hc.
    set (h := grid_cell board_img width rows cols).
    rewrite (nested_loop
               (fun acc row col =>
                  match acc, get_cell_image board_img width row col rows cols
                  with
                  | Some cell_images, Some cell_img =>
                      Some (cell_images ++ [cell_img])
                  | _, _ => None
                  end) h).
    2:{ intros row done _. apply append_loop. intros col _.
        apply get_cell_image_grid; lia. }
    cbn [app]. eexists. split; [reflexivity|].
    assert (Hlen : forall row, In row (range rows) ->
              length (map (h row) (range cols)) = Z.to_nat cols).
    { intros row _. now rewrite length_map, range_length. }
    split.
    + unfold len. rewrite (flat_map_const_length _ _ _ Hlen), range_length.
      rewrite Nat2Z.inj_mul, !Z2Nat.id by lia. reflexivity.
    + intros row col Hrow Hcol. exists (h row col).
      split; [apply get_cell_image_grid; lia|].
      rewrite getitem_nonneg by nia.
      replace (Z.to_nat (row * cols + col))
        with (Z.to_nat row * Z.to_nat cols + Z.to_nat col)%nat by nia.
      rewrite (nth_error_flat_map_const _ _ _ _ _ Hlen) by lia.
      rewrite (nth_error_range rows row Hrow), nth_error_map.
      now rewrite (nth_error_range cols col Hcol).
Qed.

Lemma capture_is_row_major_witness :
  0 < 2 /\ 0 < 2 /\
  exists cell_images,
    capture_cell_images [[1; 2; 3; 4]; [5; 6; 7; 8]; [9; 10; 11; 12];
                         [13; 14; 15; 16]] 4 2 2 = Some cell_images /\
    len cell_images = 2 * 2.
Proof.
  assert (Hr : 0 < 2) by lia.
  split; [exact Hr|]. split; [exact Hr|].
  destruct (proj2 (capture_is_row_major
                     [[1; 2; 3; 4]; [5; 6; 7; 8]; [9; 10; 11; 12];
                      [13; 14; 15; 16]] 4 2 2) Hr Hr)
    as (cell_images & H1 & H2 & _).
  exists cell_images. split; assumption.
Defined.

(** ** Boards of other shapes *)

Lemma for_each_error {I S : Type} (P : exn -> Prop) (l : list I)
    (body : I -> S -> result S) :
  (forall i s e, body i s = Raise e -> P e) ->
  forall s e, for_each l body s = Raise e -> P e.
Proof.
  intros Hbody. induction l as [|i l IH]; intros s e; cbn [for_each].
  - discriminate.
  - destruct (body i s) as [s'|e'] eqn:Hb; cbn [bind].
    + apply IH.
    + intros H. injection H as <-. eapply Hbody. exact Hb.
Qed.

Lemma getitem_error {A : Type} (l : list A) (i : Z) (e : exn) :
  getitem l i = Raise e -> e = IndexError.
Proof.
  unfold getitem. destruct (_ <? 0); [congruence|].
  destruct (nth_error l _); [discriminate | congruence].
Qed.

Lemma setitem_error {A : Type} (l : list A) (i : Z) (v : A) (e : exn) :
  setitem l i v = Raise e -> e = IndexError.
Proof.
  unfold setitem. destruct (_ || _); [congruence | discriminate].
Qed.

Lemma getcell_error (b : list (list Z)) (r c : Z) (e : exn) :
  getcell b r c = Raise e -> e = IndexError.
Proof.
  unfold getcell. destruct (getitem b r) as [row|e'] eqn:H; cbn [bind].
  - apply getitem_error.
  - intros H'. injection H' as <-. eapply getitem_error. exact H.
Qed.

Lemma setcell_error (b : list (list Z)) (r c v : Z) (e : exn) :
  setcell b r c v = Raise e -> e = IndexError.
Proof.
  unfold setcell. destruct (getitem b r) as [row|e'] eqn:H; cbn [bind].
  - destruct (setitem row c v) as [row'|e''] eqn:H'; cbn [bind].
    + apply setitem_error.
    + intros H2. injection H2 as <-. eapply setitem_error. exact H'.
  - intros H'. injection H' as <-. eapply getitem_error. exact H.
Qed.

Lemma push_body_error (b : list (list Z)) (col i : Z)
    (st : list (list Z) * Z) (e : exn) :
  down_push_body b col i st = Raise e -> e = IndexError.
Proof.
  destruct st as [d rd]. unfold down_push_body.
  destruct (getcell b i col) as [x|ex] eqn:Hg; cbn [bind].
  - destruct (occupied x); [|discriminate].
    destruct (setcell d rd col x) as [d'|es] eqn:Hs; cbn [bind];
      [discriminate|].
    intros H. injection H as <-. eapply setcell_error. exact Hs.
  - intros H. injection H as <-. eapply getcell_error. exact Hg.
Qed.

Lemma merge_body_error (col i : Z) (d : list (list Z)) (e : exn) :
  down_merge_body col i d = Raise e -> e = IndexError.
Proof.
  unfold down_merge_body.
  destruct (getcell d i col) as [x|ex] eqn:Hg; cbn [bind].
  - destruct (getcell d (i - 1) col) as [y|ey] eqn:Hg'; cbn [bind].
    + destruct (_ && _); [|discriminate].
      destruct (setcell d i col (x * 2)) as [d'|es] eqn:Hs; cbn [bind].
      * apply setcell_error.
      * intros H. injection H as <-. eapply setcell_error. exact Hs.
    + intros H. injection H as <-. eapply getcell_error. exact Hg'.
  - intros H. injection H as <-. eapply getcell_error. exact Hg.
Qed.

Lemma repush_body_error (col i : Z) (st : list (list Z) * Z) (e : exn) :
  down_repush_body col i st = Raise e -> e = IndexError.
Proof.
  destruct st as [d rd]. unfold down_repush_body.
  destruct (getcell d i col) as [x|ex] eqn:Hg; cbn [bind].
  - destruct (occupied x); [|discriminate].
    destruct (setcell d rd col x) as [d'|es] eqn:Hs; cbn [bind];
      [discriminate|].
    intros H. injection H as <-. eapply setcell_error. exact Hs.
  - intros H. injection H as <-. eapply getcell_error. exact Hg.
Qed.

Lemma down_column_error (b : list (list Z)) (rows col : Z)
    (db : list (list Z)) (e : exn) :
  down_column b rows col db = Raise e -> e = IndexError.
Proof.
  unfold down_column.
  destruct (for_each _ (down_push_body b col) _) as [st1|e1] eqn:H1;
    cbn [bind].
  2:{ intros H. injection H as <-. revert H1.
      apply (for_each_error (fun e => e = IndexError)).
      intros i s e0. apply push_body_error. }
  destruct (for_each _ (down_merge_body col) _) as [db2|e2] eqn:H2;
    cbn [bind].
  2:{ intros H. injection H as <-. revert H2.
      apply (for_each_error (fun e => e = IndexError)).
      intros i s e0. apply merge_body_error. }
  destruct (for_each _ (down_repush_body col) _) as [st3|e3] eqn:H3;
    cbn [bind].
  2:{ intros H. injection H as <-. revert H3.
      apply (for_each_error (fun e => e = IndexError)).
      intros i s e0. apply repush_body_error. }
  apply (for_each_error (fun e => e = IndexError)).
  intros i d e0. apply setcell_error.
Qed.

Lemma check_row_lengths_ok (b : list (list Z)) (cols : Z) :
  (Forall (fun row => len row = cols) b -> check_row_lengths b cols = Ok tt)
  /\
  (~ Forall (fun row => len row = cols) b ->
   check_row_lengths b cols = Raise ValueError).
Proof.
  induction b as [|row b [IH1 IH2]]; cbn [check_row_lengths].
  - split; [reflexivity|]. intros H. exfalso. apply H. constructor.
  - destruct (Z.eqb_spec (len row) cols) as [Heq | Hne]; cbn [negb].
    + split.
      * intros H. inversion H; subst. now apply IH1.
      * intros H. apply IH2. intros Hb. apply H. now constructor.
    + split; [|reflexivity]. intros H. inversion H; subst. contradiction.
Qed.

(** X17. The validation of [down]. [down] raises ValueError exactly on the
    boards that are not rectangular: the empty board, a board whose first
    row is empty, a board with a row of another length than the first. On
    a rectangular board it does not raise ValueError. *)
Theorem down_value_error_iff_not_rectangular (b : list (list Z)) :
  down b = Raise ValueError <-> ~ rectangular b.
Proof.
  unfold rectangular. destruct b as [|row0 rest].
  - cbn. split; [|reflexivity]. intros _ (r & t & H & _). discriminate H.
  - destruct row0 as [|x row0].
    + cbn. split; [|reflexivity].
      intros _ (r & t & H & Hne & _). injection H as <- <-. now apply Hne.
    + set (first := x :: row0).
      assert (Hdown : down (first :: rest)
                = (_ <- check_row_lengths (first :: rest) (len first) ;;
                   for_each (range (len first))
                     (down_column (first :: rest) (len (first :: rest)))
                     (repeat (repeat 1 (Z.to_nat (len first)))
                        (Z.to_nat (len (first :: rest))))))
        by reflexivity.
      rewrite Hdown.
      destruct (check_row_lengths_ok (first :: rest) (len first))
        as [Hok Hbad].
      assert (Hiff : Forall (fun row => len row = len first) (first :: rest)
                     <-> Forall (fun row => length row = length first) rest).
      { split.
        - intros H. inversion H; subst.
          eapply Forall_impl; [|eassumption]. unfold len. intros r Hr. lia.
        - intros H. constructor; [reflexivity|].
          eapply Forall_impl; [|exact H]. unfold len. intros r Hr. lia. }
      split.
      * intros Hraise (r & t & Heq & _ & Hall).
        injection Heq as <- <-. rewrite Hok in Hraise by now apply Hiff.
        cbn [bind] in Hraise.
        assert (ValueError = IndexError); [|discriminate].
        revert Hraise. apply (for_each_error (fun e => e = IndexError)).
        intros i s e. apply down_column_error.
      * intros Hnot. rewrite Hbad; [reflexivity|].
        intros Hall. apply Hnot. exists first, rest.
        split; [reflexivity|]. split; [discriminate | now apply Hiff].
Qed.

Lemma setitem_in_range {A : Type} (l : list A) (i : Z) (v : A) :
  0 <= i < len l -> setitem l i v = Ok (update l (Z.to_nat i) v).
Proof.
  intros Hi. unfold setitem, norm_index.
  destruct (Z.ltb_spec i 0); [lia|]. destruct (Z.ltb_spec i 0); [lia|].
  destruct (Z.leb_spec (len l) i); [lia|]. reflexivity.
Qed.

Lemma reverse_object_length (objs : list (list Z)) (r r' : nat) :
  length (nth r' (update objs r (rev (nth r objs []))) [])
  = length (nth r' objs []).
Proof.
  revert r r'. induction objs as [|h t IH]; intros r r'; [reflexivity|].
  destruct r as [|r]; destruct r' as [|r']; cbn [update nth]; auto.
  apply length_rev.
Qed.

Lemma reverse_row_lengths (board board' : pyboard) (i : Z) :
  reverse_row board i = Ok board' ->
  refs board' = refs board /\
  map (@length Z) (rows_of board') = map (@length Z) (rows_of board).
Proof.
  unfold reverse_row. destruct (getitem (refs board) i) as [r|e];
    cbn [bind]; [|discriminate].
  intros H. injection H as <-. split; [reflexivity|].
  unfold rows_of. cbn [objects refs]. rewrite !map_map.
  apply map_ext. intros r'. apply reverse_object_length.
Qed.

Lemma concat_nil_lengths (l l' : list (list Z)) :
  map (@length Z) l = map (@length Z) l' -> concat l = [] -> concat l' = [].
Proof.
  intros Hmap H. apply length_zero_iff_nil.
  apply (f_equal (@length Z)) in H.
  rewrite length_concat in H |- *. rewrite <- Hmap. exact H.
Qed.

(** X18. The scorer on short boards. [find_longest_path] reverses rows 0
    and 2 in place, so on a board with fewer than three rows it raises
    IndexError, and [score] with it; with three rows or more it raises
    IndexError when the board has no cell, and otherwise returns a
    sequence that is not empty. This holds whichever rows of the board
    are one list object. *)
Theorem find_longest_path_needs_three_rows (board : pyboard) :
  ((length (rows_of board) < 3)%nat ->
   find_longest_path board = Raise IndexError /\
   score board = Raised IndexError) /\
  ((3 <= length (rows_of board))%nat -> concat (rows_of board) = [] ->
   find_longest_path board = Raise IndexError) /\
  ((3 <= length (rows_of board))%nat -> concat (rows_of board) <> [] ->
   exists x p, find_longest_path board = Ok (x :: p)).
Proof.
  assert (Hlen : length (rows_of board) = length (refs board))
    by (unfold rows_of; apply length_map).
  rewrite Hlen. destruct board as [objs rs]. cbn [refs] in *.
  destruct rs as [|a0 [|a1 [|a2 rest]]].
  - split; [intros _; split; reflexivity|]. cbn [length]. split; intros; lia.
  - split; [intros _; split; reflexivity|]. cbn [length]. split; intros; lia.
  - split; [intros _; split; reflexivity|]. cbn [length]. split; intros; lia.
  - set (board := {| objects := objs; refs := a0 :: a1 :: a2 :: rest |}).
    destruct (reverse_row board 0) as [b1|e] eqn:H1; [|discriminate H1].
    destruct (reverse_row_lengths _ _ _ H1) as [Hr1 Hl1].
    assert (H2 : exists b2, reverse_row b1 2 = Ok b2).
    { unfold reverse_row. rewrite Hr1. cbn [refs board].
      change (getitem (a0 :: a1 :: a2 :: rest) 2) with (Ok a2).
      cbn [bind]. eauto. }
    destruct H2 as (b2 & H2).
    destruct (reverse_row_lengths _ _ _ H2) as [Hr2 Hl2].
    assert (Hpath : find_longest_path board
              = (last <- getitem (rev (concat (rows_of b2))) 0 ;;
                 Ok (path_loop (rev (concat (rows_of b2))) [] last))).
    { unfold find_longest_path. rewrite H1. cbn [bind]. rewrite H2.
      reflexivity. }
    assert (Hmap : map (@length Z) (rows_of b2)
                   = map (@length Z) (rows_of board)) by congruence.
    split; [cbn [length]; intros; lia|]. rewrite Hpath. split.
    + intros _ H. rewrite (concat_nil_lengths _ _ (eq_sym Hmap) H).
      reflexivity.
    + intros _ H.
      destruct (rev (concat (rows_of b2))) as [|x t] eqn:E.
      * exfalso. apply H. apply (concat_nil_lengths _ _ Hmap).
        apply (f_equal (@rev Z)) in E. rewrite rev_involutive in E.
        exact E.
      * change (getitem (x :: t) 0) with (Ok x). cbn [bind].
        rewrite path_loop_run. cbn [app noninc_run].
        rewrite Z.leb_refl. eauto.
Qed.

Lemma find_longest_path_needs_three_rows_witness :
  (3 <= length (rows_of (fresh [[2%Z; 4%Z]; []; [8%Z]])))%nat /\
  concat (rows_of (fresh [[2; 4]; []; [8]])) <> [] /\
  exists x p, find_longest_path (fresh [[2; 4]; []; [8]]) = Ok (x :: p).
Proof.
  assert (Hl : (3 <= length (rows_of (fresh [[2%Z; 4%Z]; []; [8%Z]])))%nat)
    by (cbn; lia).
  assert (Hc : concat (rows_of (fresh [[2; 4]; []; [8]])) <> [])
    by discriminate.
  split; [exact Hl|]. split; [exact Hc|].
  exact (proj2 (proj2 (find_longest_path_needs_three_rows _)) Hl Hc).
Defined.
